(** * The bicycle model of selfdrive/controls/lib/vehicle_model.py

    A shallow embedding of [VehicleModel] and of the free functions of the
    module, with the properties of its parameter store, its steady-state
    solver, its curvature mappings and the loops of [calc_curvature_3dof].

    Numbers.  The Python [float]s of the source are read as exact rationals
    ([Q]): every formula keeps the source's operations in the source's order,
    and equality of numbers is [Qeq] ([==]).  Rounding, infinities and NaN
    are outside this reading.  A division whose divisor is zero raises
    [ZeroDivisionError], as Python's float division does. *)

From Stdlib Require Import QArith Qabs Qfield Lqa.
From Stdlib Require Import List Arith Lia Bool.
Import ListNotations.

Open Scope Q_scope.

(** ** Exceptions and results *)

Inductive exn : Type :=
| ZeroDivisionError
| LinAlgError
| ValueError
| IndexError.

Inductive result (A : Type) : Type :=
| Ok (a : A)
| Raise (e : exn).

Arguments Ok {A} a.
Arguments Raise {A} e.

Definition bind {A B : Type} (r : result A) (k : A -> result B) : result B :=
  match r with
  | Ok a => k a
  | Raise e => Raise e
  end.

Notation "x <- r ;; k" := (bind r (fun x => k))
  (at level 61, r at next level, right associativity).
Notation "' pat <- r ;; k" := (bind r (fun x => match x with pat => k end))
  (at level 61, pat pattern, r at next level, right associativity).

(** [a / b] on Python floats. *)
Definition fdiv (a b : Q) : result Q :=
  if Qeq_bool b 0 then Raise ZeroDivisionError else Ok (a / b).

(** Case analysis on the divisions of a hypothesis that says a computation
    returned: each divisor is nonzero. *)
Ltac fdiv_cases H :=
  unfold fdiv in H;
  repeat match type of H with
         | context [if Qeq_bool ?a ?b then _ else _] =>
             let E := fresh "E" in
             destruct (Qeq_bool a b) eqn:E; cbn [bind] in H;
             [discriminate H | apply Qeq_bool_neq in E]
         end.

(** [a < b] on Python floats. *)
Definition Qltb (a b : Q) : bool := negb (Qle_bool b a).

(** [r] returns a number equal to [q]. *)
Definition returns (r : result Q) (q : Q) : Prop :=
  exists v, r = Ok v /\ v == q.

(** [r] returns a pair of numbers equal to [(a, b)]. *)
Definition returns2 (r : result (Q * Q)) (a b : Q) : Prop :=
  exists v w, r = Ok (v, w) /\ v == a /\ w == b.

(** ** Constants *)

Definition ACCELERATION_DUE_TO_GRAVITY : Q := 9.8.
Definition SEGMENT_LENGTH_3DOF : nat := 5.
Definition CURVATURE_CORR_ALPHA_3DOF : Q := 0.5.

(** ** The parameter record and the model *)

(** The fields of [car.CarParams] that [VehicleModel.__init__] reads. *)
Record CarParams : Type := {
  mass : Q;
  rotationalInertia : Q;
  wheelbase : Q;
  centerToFront : Q;
  steerRatioRear : Q;
  tireStiffnessFront : Q;
  tireStiffnessRear : Q;
  steerRatio : Q
}.

Record VehicleModel : Type := {
  m : Q;
  j : Q;
  l : Q;
  aF : Q;
  aR : Q;
  chi : Q;
  cF_orig : Q;
  cR_orig : Q;
  cF : Q;
  cR : Q;
  sR : Q
}.

(** [VehicleModel.update_params]: three assignments, nothing else. *)
Definition update_params (self : VehicleModel) (stiffness_factor steer_ratio : Q)
  : VehicleModel :=
  {| m := m self; j := j self; l := l self;
     aF := aF self; aR := aR self; chi := chi self;
     cF_orig := cF_orig self; cR_orig := cR_orig self;
     cF := stiffness_factor * cF_orig self;
     cR := stiffness_factor * cR_orig self;
     sR := steer_ratio |}.

(** [VehicleModel.__init__].  The attributes [cF], [cR] and [sR] do not exist
    before the call of [update_params], which assigns all three; the zeros
    below stand for them and are never read. *)
Definition init (CP : CarParams) : VehicleModel :=
  let self :=
    {| m := mass CP; j := rotationalInertia CP; l := wheelbase CP;
       aF := centerToFront CP; aR := wheelbase CP - centerToFront CP;
       chi := steerRatioRear CP;
       cF_orig := tireStiffnessFront CP; cR_orig := tireStiffnessRear CP;
       cF := 0; cR := 0; sR := 0 |} in
  update_params self 1.0 (steerRatio CP).

(** The states a [VehicleModel] object goes through: built by [__init__],
    then changed by [update_params] only. *)
Inductive reachable : VehicleModel -> Prop :=
| reach_init (CP : CarParams) : reachable (init CP)
| reach_update (VM : VehicleModel) (stiffness_factor steer_ratio : Q) :
    reachable VM -> reachable (update_params VM stiffness_factor steer_ratio).

(** ** Curvature and yaw rate *)

Definition calc_slip_factor (VM : VehicleModel) : result Q :=
  fdiv (m VM * (cF VM * aF VM - cR VM * aR VM)) (l VM ^ 2 * cF VM * cR VM).

Definition curvature_factor (self : VehicleModel) (u : Q) : result Q :=
  sf <- calc_slip_factor self ;;
  t <- fdiv (1 - chi self) (1 - sf * u ^ 2) ;;
  fdiv t (l self).

Definition roll_compensation (self : VehicleModel) (roll u : Q) : result Q :=
  sf <- calc_slip_factor self ;;
  if Qltb (Qabs sf) 1e-6 then Ok 0
  else
    t <- fdiv 1 sf ;;
    fdiv (ACCELERATION_DUE_TO_GRAVITY * roll) (t - u ^ 2).

Definition calc_curvature (self : VehicleModel) (sa u roll : Q) : result Q :=
  cf <- curvature_factor self u ;;
  a <- fdiv (cf * sa) (sR self) ;;
  rc <- roll_compensation self roll u ;;
  Ok (a + rc).

Definition get_steer_from_curvature (self : VehicleModel) (curv u roll : Q)
  : result Q :=
  rc <- roll_compensation self roll u ;;
  cf <- curvature_factor self u ;;
  fdiv ((curv - rc) * sR self * 1.0) cf.

Definition get_steer_from_yaw_rate (self : VehicleModel) (yaw_rate u roll : Q)
  : result Q :=
  curv <- fdiv yaw_rate u ;;
  get_steer_from_curvature self curv u roll.

Definition yaw_rate (self : VehicleModel) (sa u roll : Q) : result Q :=
  c <- calc_curvature self sa u roll ;;
  Ok (c * u).

(** ** Matrices of the 2-state system *)

(** A 2x2 numpy array, by entries [e_row_col]. *)
Record mat22 : Type := {
  e00 : Q; e01 : Q;
  e10 : Q; e11 : Q
}.

(** A 2x1 numpy array. *)
Definition vec2 : Type := (Q * Q)%type.

Definition veq (a b : vec2) : Prop := fst a == fst b /\ snd a == snd b.

Definition det22 (A : mat22) : Q := e00 A * e11 A - e01 A * e10 A.

Definition mat_neg (A : mat22) : mat22 :=
  {| e00 := - e00 A; e01 := - e01 A; e10 := - e10 A; e11 := - e11 A |}.

(** [A @ x] for a 2x2 [A] and a 2x1 [x]. *)
Definition mat_vec (A : mat22) (x : vec2) : vec2 :=
  (e00 A * fst x + e01 A * snd x, e10 A * fst x + e11 A * snd x).

(** [A @ X] for 2x2 arrays. *)
Definition mat_mul (A X : mat22) : mat22 :=
  {| e00 := e00 A * e00 X + e01 A * e10 X;
     e01 := e00 A * e01 X + e01 A * e11 X;
     e10 := e10 A * e00 X + e11 A * e10 X;
     e11 := e10 A * e01 X + e11 A * e11 X |}.

Definition vec_neg (x : vec2) : vec2 := (- fst x, - snd x).

Definition meq (A B : mat22) : Prop :=
  e00 A == e00 B /\ e01 A == e01 B /\ e10 A == e10 B /\ e11 A == e11 B.

(** [numpy.linalg.solve(A, B)] on 2x2 arrays, the way LAPACK's gesv works:
    an LU factorisation with partial pivoting (the row whose first entry is
    larger in absolute value becomes the pivot row, the first row on a tie),
    then forward and back substitution for each column of [B].  A pivot that
    is exactly zero makes numpy raise [LinAlgError] (singular matrix). *)
Definition solve (A B : mat22) : result mat22 :=
  let swap := Qltb (Qabs (e00 A)) (Qabs (e10 A)) in
  let p0 := if swap then e10 A else e00 A in
  let p1 := if swap then e11 A else e01 A in
  let q0 := if swap then e00 A else e10 A in
  let q1 := if swap then e01 A else e11 A in
  let bp0 := if swap then e10 B else e00 B in
  let bp1 := if swap then e11 B else e01 B in
  let bq0 := if swap then e00 B else e10 B in
  let bq1 := if swap then e01 B else e11 B in
  if Qeq_bool p0 0 then Raise LinAlgError
  else
    let lam := q0 / p0 in
    let u11 := q1 - lam * p1 in
    if Qeq_bool u11 0 then Raise LinAlgError
    else
      let x10 := (bq0 - lam * bp0) / u11 in
      let x11 := (bq1 - lam * bp1) / u11 in
      let x00 := (bp0 - p1 * x10) / p0 in
      let x01 := (bp1 - p1 * x11) / p0 in
      Ok {| e00 := x00; e01 := x01; e10 := x10; e11 := x11 |}.

(** ** Steady state *)

Definition kin_ss_sol (sa u : Q) (VM : VehicleModel) : result vec2 :=
  a <- fdiv (aR VM) (sR VM) ;;
  b <- fdiv a (l VM) ;;
  let K00 := b * u in
  c <- fdiv 1 (sR VM) ;;
  d <- fdiv c (l VM) ;;
  let K10 := d * u in
  Ok (K00 * sa, K10 * sa).

Definition create_dyn_state_matrices (u : Q) (VM : VehicleModel)
  : result (mat22 * mat22) :=
  A00 <- fdiv (- (cF VM + cR VM)) (m VM * u) ;;
  t01 <- fdiv (- (cF VM * aF VM - cR VM * aR VM)) (m VM * u) ;;
  let A01 := t01 - u in
  A10 <- fdiv (- (cF VM * aF VM - cR VM * aR VM)) (j VM * u) ;;
  A11 <- fdiv (- (cF VM * aF VM ^ 2 + cR VM * aR VM ^ 2)) (j VM * u) ;;
  t00 <- fdiv (cF VM + chi VM * cR VM) (m VM) ;;
  B00 <- fdiv t00 (sR VM) ;;
  t10 <- fdiv (cF VM * aF VM - chi VM * cR VM * aR VM) (j VM) ;;
  B10 <- fdiv t10 (sR VM) ;;
  let B01 := - ACCELERATION_DUE_TO_GRAVITY in
  Ok ({| e00 := A00; e01 := A01; e10 := A10; e11 := A11 |},
      {| e00 := B00; e01 := B01; e10 := B10; e11 := 0 |}).

Definition dyn_ss_sol (sa u roll : Q) (VM : VehicleModel) : result vec2 :=
  ' (A, B) <- create_dyn_state_matrices u VM ;;
  X <- solve A B ;;
  Ok (mat_vec (mat_neg X) (sa, roll)).

Definition steady_state_sol (self : VehicleModel) (sa u roll : Q) : result vec2 :=
  if Qltb 0.1 u then dyn_ss_sol sa u roll self
  else kin_ss_sol sa u self.

(** ** The 3-state system *)

(** A 3x3 numpy array. *)
Record mat33 : Type := {
  a00 : Q; a01 : Q; a02 : Q;
  a10 : Q; a11 : Q; a12 : Q;
  a20 : Q; a21 : Q; a22 : Q
}.

(** A 3x2 numpy array. *)
Record mat32 : Type := {
  b00 : Q; b01 : Q;
  b10 : Q; b11 : Q;
  b20 : Q; b21 : Q
}.

Definition vec3 : Type := (Q * Q * Q)%type.

(** [A @ state + B @ input_vector]. *)
Definition x_dot_3dof (A : mat33) (B : mat32) (state : vec3) (input_vector : vec2)
  : vec3 :=
  let '(s0, s1, s2) := state in
  let '(i0, i1) := input_vector in
  (a00 A * s0 + a01 A * s1 + a02 A * s2 + (b00 B * i0 + b01 B * i1),
   a10 A * s0 + a11 A * s1 + a12 A * s2 + (b10 B * i0 + b11 B * i1),
   a20 A * s0 + a21 A * s1 + a22 A * s2 + (b20 B * i0 + b21 B * i1)).

(** The arguments [v] and [yaw_rate] are not used by the source either. *)
Definition create_dyn_state_matrices_3dof (u v yaw_rate : Q) (VM : VehicleModel)
  : result (mat33 * mat32) :=
  A11 <- fdiv (- (cF VM + cR VM)) (m VM * u) ;;
  t12 <- fdiv (cF VM * aF VM - cR VM * aR VM) (m VM * u) ;;
  let A12 := - u - t12 in
  A21 <- fdiv (- (cF VM * aF VM - cR VM * aR VM)) (j VM * u) ;;
  A22 <- fdiv (- (cF VM * aF VM ^ 2 + cR VM * aR VM ^ 2)) (j VM * u) ;;
  B10 <- fdiv (cF VM) (m VM * sR VM) ;;
  B20 <- fdiv (cF VM * aF VM) (j VM * sR VM) ;;
  Ok ({| a00 := 0; a01 := 0; a02 := 0;
         a10 := 0; a11 := A11; a12 := A12;
         a20 := 0; a21 := A21; a22 := A22 |},
      {| b00 := 0; b01 := 1;
         b10 := B10; b11 := 0;
         b20 := B20; b21 := 0 |}).

(** ** Python lists and ranges *)

(** [xs[i:e]] for [0 <= i] and [0 <= e]. *)
Definition slice {A : Type} (xs : list A) (i e : nat) : list A :=
  skipn i (firstn e xs).

(** [xs[i]] for [0 <= i]. *)
Definition item (xs : list Q) (i : nat) : result Q :=
  match nth_error xs i with
  | Some v => Ok v
  | None => Raise IndexError
  end.

(** [xs[-1]]. *)
Definition item_last (xs : list Q) : result Q :=
  match xs with
  | [] => Raise IndexError
  | _ :: _ => Ok (last xs 0)
  end.

(** The values [i], [i + step], ... below [stop]; at most [fuel] of them. *)
Fixpoint range_from (fuel i stop step : nat) : list nat :=
  match fuel with
  | O => []
  | S fuel' =>
      if (i <? stop)%nat then i :: range_from fuel' (i + step) stop step
      else []
  end.

(** [range(start, stop, step)] for [0 <= start] and [1 <= step]: the loop
    variable grows by at least one at each turn, so [stop] turns are enough. *)
Definition py_range (start stop step : nat) : list nat :=
  range_from stop start stop step.

(** [sum(xs)]. *)
Definition py_sum (xs : list Q) : Q := fold_left Qplus xs 0.

(** ** The curvature fusion estimator *)

Module log.

Record XYZTData : Type := {
  x : list Q;
  y : list Q;
  t : list Q
}.

Record ModelDataV2 : Type := {
  position : XYZTData
}.

End log.

(** The numpy array routines that [calc_curvature_3dof] calls on a segment.
    They work on floating-point arrays (non-uniform finite differences, a
    fractional power, a mean that skips NaN) and are taken as given:
    [np_gradient f coords] is [np.gradient(f, coords)], which raises
    [ValueError] on arrays it rejects, and [np_path_curvature dx dy ddx ddy]
    is [np.nanmean(np.abs(ddx * dy - ddy * dx) / (dx**2 + dy**2)**(3/2))]. *)
Record Numpy : Type := {
  np_gradient : list Q -> list Q -> result (list Q);
  np_path_curvature : list Q -> list Q -> list Q -> list Q -> Q
}.

(** The start indices of the segments: [range(0, range_end, 5)] with
    [range_end = n - 5], for a trajectory of [n >= 5] samples. *)
Definition segment_starts (n : nat) : list nat :=
  let range_end := (n - SEGMENT_LENGTH_3DOF)%nat in
  py_range 0 range_end SEGMENT_LENGTH_3DOF.

(** The body of the segment loop at index [i]: the baseline curvature and
    the 3-DoF curvature of the segment.  A zero divisor is reported as
    [ZeroDivisionError] whichever scalar performs the division; on numpy's
    own scalars ([dx[0]] and what is computed from it) Python would go on
    with an infinity or a NaN instead. *)
Definition segment_curvatures (np : Numpy) (self : VehicleModel)
    (positions_x positions_y times : list Q)
    (a_y a_x yaw_rate u_measured sa : Q) (i : nat) : result (Q * Q) :=
  let end_idx := (i + SEGMENT_LENGTH_3DOF)%nat in
  let x_segment := slice positions_x i end_idx in
  let y_segment := slice positions_y i end_idx in
  let t_segment := slice times i end_idx in
  dx <- np_gradient np x_segment t_segment ;;
  dy <- np_gradient np y_segment t_segment ;;
  ddx <- np_gradient np dx t_segment ;;
  ddy <- np_gradient np dy t_segment ;;
  let curvature_baseline := np_path_curvature np dx dy ddx ddy in
  u <- (if Qltb 0.1 u_measured then Ok u_measured else item dx 0) ;;
  v <- (if Qltb 0.1 u then fdiv a_y u else Ok 0.0) ;;
  ' (A, B) <- create_dyn_state_matrices_3dof u v yaw_rate self ;;
  let state := (u, v, yaw_rate) in
  let input_vector := (sa, a_x) in
  t_last <- item_last t_segment ;;
  t_first <- item t_segment 0 ;;
  let delta_t := t_last - t_first in
  let '(xd0, xd1, xd2) := x_dot_3dof A B state input_vector in
  let state0 := u + xd0 * delta_t in
  let state1 := v + xd1 * delta_t in
  let state2 := yaw_rate + xd2 * delta_t in
  curvature_3dof <- (if Qltb 0.1 state0 then fdiv state2 state0 else Ok 0.0) ;;
  Ok (curvature_baseline, curvature_3dof).

(** The segment loop: both lists grow by one value per segment. *)
Fixpoint segment_loop (body : nat -> result (Q * Q)) (starts : list nat)
    (curvatures_baseline curvatures_3dof : list Q) : result (list Q * list Q) :=
  match starts with
  | [] => Ok (curvatures_baseline, curvatures_3dof)
  | i :: starts' =>
      ' (cb, c3d) <- body i ;;
      segment_loop body starts' (curvatures_baseline ++ [cb])
                   (curvatures_3dof ++ [c3d])
  end.

(** The correction loop over [zip(curvatures_baseline, curvatures_3dof)]. *)
Definition combine_curvatures (curvatures_baseline curvatures_3dof : list Q)
  : list Q :=
  map (fun '(cb, c3d) =>
         let delta_curvature := cb - c3d in
         cb + CURVATURE_CORR_ALPHA_3DOF * delta_curvature)
      (combine curvatures_baseline curvatures_3dof).

(** The time-windowing loop, from index [i] on: [rest] holds the values of
    [combined_curvatures] not yet visited. *)
Fixpoint time_window_from (i : nat) (rest times : list Q) (time_horizon : Q)
    (total_time : Q) (relevant_curvatures : list Q) : list Q :=
  match rest with
  | [] => relevant_curvatures
  | curvature :: rest' =>
      if Qle_bool time_horizon total_time then relevant_curvatures
      else if (i <? length times - 1)%nat then
        let delta_t := nth (i + 1) times 0 - nth i times 0 in
        time_window_from (S i) rest' times time_horizon
                         (total_time + delta_t)
                         (relevant_curvatures ++ [curvature])
      else
        time_window_from (S i) rest' times time_horizon total_time
                         relevant_curvatures
  end.

Definition time_window (combined_curvatures times : list Q) (time_horizon : Q)
  : list Q :=
  time_window_from 0 combined_curvatures times time_horizon 0.0 [].

(** [combined_curvatures] of a call, when the segment loop raises nothing. *)
Definition combined_curvatures_3dof (np : Numpy) (self : VehicleModel)
    (modelV2 : log.ModelDataV2) (a_y a_x yaw_rate u_measured sa : Q)
  : result (list Q) :=
  let positions_x := log.x (log.position modelV2) in
  let positions_y := log.y (log.position modelV2) in
  let times := log.t (log.position modelV2) in
  ' (curvatures_baseline, curvatures_3dof) <-
    segment_loop
      (segment_curvatures np self positions_x positions_y times
                          a_y a_x yaw_rate u_measured sa)
      (segment_starts (length positions_x)) [] [] ;;
  Ok (combine_curvatures curvatures_baseline curvatures_3dof).

Definition calc_curvature_3dof (np : Numpy) (self : VehicleModel)
    (modelV2 : log.ModelDataV2) (a_y a_x yaw_rate u_measured sa : Q)
    (time_horizon : Q) : result Q :=
  let positions_x := log.x (log.position modelV2) in
  let positions_y := log.y (log.position modelV2) in
  let times := log.t (log.position modelV2) in
  if ((length positions_x <? SEGMENT_LENGTH_3DOF)%nat
      || (length positions_y <? SEGMENT_LENGTH_3DOF)%nat)%bool
  then Ok 0.0
  else
    combined_curvatures <-
      combined_curvatures_3dof np self modelV2 a_y a_x yaw_rate u_measured sa ;;
    let relevant_curvatures :=
      time_window combined_curvatures times time_horizon in
    match relevant_curvatures with
    | [] => Ok 0.0
    | _ :: _ =>
        fdiv (py_sum relevant_curvatures)
             (inject_Z (Z.of_nat (length relevant_curvatures)))
    end.

(** ** Inputs of the examples *)

(** The parameter set of the spec's concrete scenario, with a steer ratio
    of 15. *)
Definition CP_example : CarParams :=
  {| mass := 1500; rotationalInertia := 2500; wheelbase := 2.7;
     centerToFront := 1.35; steerRatioRear := 0;
     tireStiffnessFront := 80000; tireStiffnessRear := 80000;
     steerRatio := 15 |}.

Definition VM_example : VehicleModel := init CP_example.

(** An understeering variant: the centre of gravity sits ahead of the middle
    of the wheelbase, so the slip factor is negative. *)
Definition CP_understeer : CarParams :=
  {| mass := 1500; rotationalInertia := 2500; wheelbase := 2.7;
     centerToFront := 1.2; steerRatioRear := 0;
     tireStiffnessFront := 80000; tireStiffnessRear := 80000;
     steerRatio := 15 |}.

Definition VM_understeer : VehicleModel := init CP_understeer.



(** A trajectory of exactly five samples, 0.1 s apart, on a straight line. *)
Definition five_samples : log.ModelDataV2 :=
  {| log.position :=
       {| log.x := [0; 1; 2; 3; 4];
          log.y := [0; 0; 0; 0; 0];
          log.t := [0; 0.1; 0.2; 0.3; 0.4] |} |}.

(** A trajectory of ten samples of the same kind. *)
Definition ten_samples : log.ModelDataV2 :=
  {| log.position :=
       {| log.x := [0; 1; 2; 3; 4; 5; 6; 7; 8; 9];
          log.y := [0; 0; 0; 0; 0; 0; 0; 0; 0; 0];
          log.t := [0; 0.1; 0.2; 0.3; 0.4; 0.5; 0.6; 0.7; 0.8; 0.9] |} |}.

(** A trajectory with ten samples in [x] and three in [y]. *)
Definition short_y_samples : log.ModelDataV2 :=
  {| log.position :=
       {| log.x := [0; 1; 2; 3; 4; 5; 6; 7; 8; 9];
          log.y := [0; 0; 0];
          log.t := [0; 0.1; 0.2; 0.3; 0.4; 0.5; 0.6; 0.7; 0.8; 0.9] |} |}.

(** Array routines for the examples: the gradient of a segment is taken as
    one everywhere, and the path curvature of every segment as 0.25. *)
Definition np_example : Numpy :=
  {| np_gradient := fun f _ => Ok (map (fun _ => 1) f);
     np_path_curvature := fun _ _ _ _ => 0.25 |}.

(** The running total of the time-windowing loop when it reaches index [i]
    without having skipped a step: the sum of the first [i] deltas. *)
Fixpoint elapsed (times : list Q) (i : nat) : Q :=
  match i with
  | O => 0.0
  | S i' => elapsed times i' + (nth (i' + 1) times 0 - nth i' times 0)
  end.

(** * Properties *)

(** ** Divisions and comparisons *)

Lemma fdiv_ok (a b : Q) : ~ b == 0 -> fdiv a b = Ok (a / b).
Proof.
  intros Hb. unfold fdiv.
  destruct (Qeq_bool b 0) eqn:E; [| reflexivity].
  apply Qeq_bool_eq in E. contradiction.
Qed.

Lemma fdiv_zero (a b : Q) : b == 0 -> fdiv a b = Raise ZeroDivisionError.
Proof.
  intros Hb. unfold fdiv. now rewrite (Qeq_eq_bool _ _ Hb).
Qed.

Lemma fdiv_inv (a b v : Q) : fdiv a b = Ok v -> ~ b == 0 /\ v = a / b.
Proof.
  unfold fdiv. destruct (Qeq_bool b 0) eqn:E; [discriminate |].
  intros H. injection H as <-. split; [| reflexivity].
  now apply Qeq_bool_neq.
Qed.

Lemma Qltb_lt (a b : Q) : Qltb a b = true <-> a < b.
Proof.
  unfold Qltb. rewrite negb_true_iff.
  destruct (Qle_bool b a) eqn:E.
  - apply Qle_bool_iff in E. split; [discriminate |].
    intros H. exfalso. apply (Qlt_not_le _ _ H E).
  - split; [intros _ | reflexivity].
    apply Qnot_le_lt. intros H. apply Qle_bool_iff in H. congruence.
Qed.

Lemma Qltb_ge (a b : Q) : Qltb a b = false <-> b <= a.
Proof.
  unfold Qltb. rewrite negb_false_iff. apply Qle_bool_iff.
Qed.

(** ** The parameter store *)

(** C6. [update_params] assigns [cF], [cR] and [sR] from its two arguments,
    whatever their values and signs, and every other field keeps its value. *)
Theorem update_params_assigns_and_frames :
  forall (self : VehicleModel) (stiffness_factor steer_ratio : Q),
    let VM' := update_params self stiffness_factor steer_ratio in
    cF VM' = stiffness_factor * cF_orig self /\
    cR VM' = stiffness_factor * cR_orig self /\
    sR VM' = steer_ratio /\
    m VM' = m self /\ j VM' = j self /\ l VM' = l self /\
    aF VM' = aF self /\ aR VM' = aR self /\ chi VM' = chi self /\
    cF_orig VM' = cF_orig self /\ cR_orig VM' = cR_orig self.
Proof.
  intros self stiffness_factor steer_ratio. cbn. repeat split.
Qed.

(** The constructor leaves the stiffnesses at their baselines. *)
Lemma init_stiffness (CP : CarParams) :
  cF (init CP) == cF_orig (init CP) /\ cR (init CP) == cR_orig (init CP).
Proof.
  cbn. split; ring.
Qed.

(** Whatever the state before, [update_params] scales both baselines by
    one factor. *)
Lemma update_params_common_factor (VM : VehicleModel) (sf sr : Q) :
  let VM' := update_params VM sf sr in
  cF VM' * cR_orig VM' == cR VM' * cF_orig VM'.
Proof.
  cbn. ring.
Qed.

(** C10. Front and rear stiffness are scaled from their baselines by one
    common factor in every reachable state: the constructor starts at the
    baselines, every [update_params] keeps the relation. *)
Theorem stiffness_common_factor_invariant :
  (forall CP : CarParams,
      cF (init CP) == cF_orig (init CP) /\ cR (init CP) == cR_orig (init CP)) /\
  (forall (VM : VehicleModel) (sf sr : Q),
      cF VM * cR_orig VM == cR VM * cF_orig VM ->
      cF (update_params VM sf sr) * cR_orig (update_params VM sf sr)
      == cR (update_params VM sf sr) * cF_orig (update_params VM sf sr)) /\
  (forall VM : VehicleModel,
      reachable VM -> cF VM * cR_orig VM == cR VM * cF_orig VM).
Proof.
  split; [exact init_stiffness |].
  split.
  - intros VM sf sr _. apply update_params_common_factor.
  - intros VM H. induction H as [CP | VM sf sr _ _].
    + destruct (init_stiffness CP) as [HF HR]. rewrite HF, HR. ring.
    + apply update_params_common_factor.
Qed.

Lemma stiffness_common_factor_invariant_witness :
  reachable (update_params (init CP_example) 0.5 (-3)) /\
  cF (update_params (init CP_example) 0.5 (-3))
  * cR_orig (update_params (init CP_example) 0.5 (-3))
  == cR (update_params (init CP_example) 0.5 (-3))
     * cF_orig (update_params (init CP_example) 0.5 (-3)).
Proof.
  assert (H : reachable (update_params (init CP_example) 0.5 (-3)))
    by (apply reach_update, reach_init).
  split; [exact H |].
  exact (proj2 (proj2 stiffness_common_factor_invariant) _ H).
Defined.

(** ** The kinematic regime *)

Lemma kin_ss_sol_value (sa u : Q) (VM : VehicleModel) :
  ~ sR VM == 0 -> ~ l VM == 0 ->
  kin_ss_sol sa u VM
  = Ok (aR VM / sR VM / l VM * u * sa, 1 / sR VM / l VM * u * sa).
Proof.
  intros HsR Hl. unfold kin_ss_sol.
  rewrite (fdiv_ok (aR VM) _ HsR). cbn [bind].
  rewrite (fdiv_ok _ _ Hl). cbn [bind].
  rewrite (fdiv_ok 1 _ HsR). cbn [bind].
  rewrite (fdiv_ok _ _ Hl). reflexivity.
Qed.

Lemma steady_state_sol_low_speed (self : VehicleModel) (sa u roll : Q) :
  u <= 0.1 -> steady_state_sol self sa u roll = kin_ss_sol sa u self.
Proof.
  intros Hu. unfold steady_state_sol.
  now rewrite (proj2 (Qltb_ge 0.1 u) Hu).
Qed.

(** C5. At a speed of at most 0.1 the steady state is the kinematic one,
    [v = (aR/(sR*l))*u*sa] and [r = (1/(sR*l))*u*sa]; the roll and the tire
    stiffnesses (or any field other than [aR], [sR], [l]) play no part. *)
Theorem steady_state_sol_kinematic :
  forall (self : VehicleModel) (sa u roll : Q),
    u <= 0.1 -> ~ sR self == 0 -> ~ l self == 0 ->
    returns2 (steady_state_sol self sa u roll)
             (aR self / (sR self * l self) * u * sa)
             (1 / (sR self * l self) * u * sa)
    /\ (forall (other : VehicleModel) (roll' : Q),
           aR other = aR self -> sR other = sR self -> l other = l self ->
           steady_state_sol other sa u roll' = steady_state_sol self sa u roll).
Proof.
  intros self sa u roll Hu HsR Hl. split.
  - rewrite (steady_state_sol_low_speed _ _ _ _ Hu).
    rewrite (kin_ss_sol_value _ _ _ HsR Hl).
    eexists; eexists. split; [reflexivity |].
    split; field; auto.
  - intros other roll' Ha Hs Hw.
    rewrite !(steady_state_sol_low_speed _ _ _ _ Hu).
    unfold kin_ss_sol. now rewrite Ha, Hs, Hw.
Qed.

Lemma steady_state_sol_kinematic_witness :
  0.05 <= 0.1 /\
  returns2 (steady_state_sol VM_example 0.3 0.05 0.02)
           (aR VM_example / (sR VM_example * l VM_example) * 0.05 * 0.3)
           (1 / (sR VM_example * l VM_example) * 0.05 * 0.3).
Proof.
  assert (Hu : 0.05 <= 0.1) by (vm_compute; discriminate).
  split; [exact Hu |].
  refine (proj1 (steady_state_sol_kinematic VM_example 0.3 0.05 0.02 Hu _ _));
    vm_compute; discriminate.
Defined.

(** C9. At zero speed the steady state is [0, 0] for every steering angle
    and every roll. *)
Theorem steady_state_sol_zero_speed :
  forall (self : VehicleModel) (sa roll : Q),
    ~ sR self == 0 -> ~ l self == 0 ->
    returns2 (steady_state_sol self sa 0 roll) 0 0.
Proof.
  intros self sa roll HsR Hl.
  rewrite steady_state_sol_low_speed by (vm_compute; discriminate).
  rewrite (kin_ss_sol_value _ _ _ HsR Hl).
  eexists; eexists. split; [reflexivity |].
  split; field; auto.
Qed.

Lemma steady_state_sol_zero_speed_witness :
  returns2 (steady_state_sol VM_example 0.7 0 (-0.04)) 0 0.
Proof.
  apply (steady_state_sol_zero_speed VM_example 0.7 (-0.04));
    vm_compute; discriminate.
Defined.

(** Without a steer ratio or a wheelbase the kinematic formula divides by
    zero: the two conditions above are the ones under which it has a value. *)
Lemma kin_ss_sol_zero_division (sa u : Q) (VM : VehicleModel) :
  sR VM == 0 \/ l VM == 0 -> kin_ss_sol sa u VM = Raise ZeroDivisionError.
Proof.
  intros H. unfold kin_ss_sol, fdiv.
  destruct (Qeq_bool (sR VM) 0) eqn:E; [reflexivity |].
  destruct H as [H | H]; [apply Qeq_bool_neq in E; contradiction |].
  cbn [bind]. now rewrite (Qeq_eq_bool _ _ H).
Qed.

(** ** Roll compensation *)

(** C7. With [sf = m*(cF*aF - cR*aR)/(l^2*cF*cR)] the slip factor,
    [roll_compensation] returns 0 when [|sf| < 1e-6] and
    [(9.8*roll)/((1/sf) - u^2)] otherwise. *)
Theorem roll_compensation_cases :
  forall (self : VehicleModel) (roll u : Q),
    ~ l self ^ 2 * cF self * cR self == 0 ->
    let sf := m self * (cF self * aF self - cR self * aR self)
              / (l self ^ 2 * cF self * cR self) in
    calc_slip_factor self = Ok sf /\
    (Qabs sf < 1e-6 -> roll_compensation self roll u = Ok 0) /\
    (~ Qabs sf < 1e-6 -> ~ 1 / sf - u ^ 2 == 0 ->
     roll_compensation self roll u = Ok (9.8 * roll / (1 / sf - u ^ 2))).
Proof.
  intros self roll u Hden sf.
  assert (Hsf : calc_slip_factor self = Ok sf)
    by (unfold calc_slip_factor; now rewrite (fdiv_ok _ _ Hden)).
  split; [exact Hsf |]. split.
  - intros Hsmall. unfold roll_compensation. rewrite Hsf. cbn [bind].
    now rewrite (proj2 (Qltb_lt _ _) Hsmall).
  - intros Hbig Hd. unfold roll_compensation. rewrite Hsf. cbn [bind].
    destruct (Qltb (Qabs sf) 1e-6) eqn:E.
    + apply Qltb_lt in E. contradiction.
    + apply Qltb_ge in E.
      assert (Hnz : ~ sf == 0).
      { intros Hz. rewrite Hz in E. vm_compute in E. apply E. reflexivity. }
      rewrite (fdiv_ok 1 _ Hnz). cbn [bind].
      now rewrite (fdiv_ok _ _ Hd).
Qed.

Lemma roll_compensation_cases_witness :
  roll_compensation VM_example 0.05 20 = Ok 0 /\
  roll_compensation VM_understeer 0.05 20
  = Ok (9.8 * 0.05
        / (1 / (m VM_understeer
                * (cF VM_understeer * aF VM_understeer
                   - cR VM_understeer * aR VM_understeer)
                / (l VM_understeer ^ 2 * cF VM_understeer * cR VM_understeer))
           - 20 ^ 2)).
Proof.
  split.
  - refine (proj1 (proj2 (roll_compensation_cases VM_example 0.05 20 _)) _).
    + vm_compute; discriminate.
    + vm_compute; reflexivity.
  - refine (proj2 (proj2 (roll_compensation_cases VM_understeer 0.05 20 _)) _ _).
    + vm_compute; discriminate.
    + vm_compute; discriminate.
    + vm_compute; discriminate.
Defined.

(** ** Curvature and its inverse *)

Lemma curvature_factor_inv (self : VehicleModel) (u cf : Q) :
  curvature_factor self u = Ok cf ->
  exists sf, calc_slip_factor self = Ok sf /\
             ~ 1 - sf * u ^ 2 == 0 /\ ~ l self == 0 /\
             cf = (1 - chi self) / (1 - sf * u ^ 2) / l self.
Proof.
  unfold curvature_factor. intros H.
  destruct (calc_slip_factor self) as [sf |] eqn:Hsf; [| discriminate].
  cbn [bind] in H.
  destruct (fdiv (1 - chi self) (1 - sf * u ^ 2)) as [t |] eqn:Ht;
    [| discriminate].
  cbn [bind] in H.
  apply fdiv_inv in Ht as [Hd ->]. apply fdiv_inv in H as [Hl ->].
  exists sf. repeat split; auto.
Qed.

(** Where the curvature factor has a value, the roll compensation has one
    too: away from the critical speed [1/sf - u^2] does not vanish. *)
Lemma roll_compensation_defined (self : VehicleModel) (roll u cf : Q) :
  curvature_factor self u = Ok cf ->
  exists rc, roll_compensation self roll u = Ok rc.
Proof.
  intros H. apply curvature_factor_inv in H as (sf & Hsf & Hd & _ & _).
  unfold roll_compensation. rewrite Hsf. cbn [bind].
  destruct (Qltb (Qabs sf) 1e-6) eqn:E; [now eexists |].
  apply Qltb_ge in E.
  assert (Hnz : ~ sf == 0).
  { intros Hz. rewrite Hz in E. vm_compute in E. apply E. reflexivity. }
  rewrite (fdiv_ok 1 _ Hnz). cbn [bind].
  rewrite fdiv_ok; [now eexists |].
  intros Hz. apply Hd.
  assert (Heq : 1 - sf * u ^ 2 == sf * (1 / sf - u ^ 2)) by (field; exact Hnz).
  rewrite Heq, Hz. ring.
Qed.

(** C3. Where the curvature factor is defined and nonzero and the steer
    ratio is nonzero, the steering angle computed for a curvature gives that
    curvature back. *)
Theorem calc_curvature_get_steer_from_curvature :
  forall (self : VehicleModel) (curv u roll cf : Q),
    curvature_factor self u = Ok cf -> ~ cf == 0 -> ~ sR self == 0 ->
    exists steer,
      get_steer_from_curvature self curv u roll = Ok steer /\
      returns (calc_curvature self steer u roll) curv.
Proof.
  intros self curv u roll cf Hcf Hnz HsR.
  destruct (roll_compensation_defined self roll u cf Hcf) as [rc Hrc].
  exists ((curv - rc) * sR self * 1.0 / cf). split.
  - unfold get_steer_from_curvature. rewrite Hrc, Hcf. cbn [bind].
    now apply fdiv_ok.
  - unfold calc_curvature. rewrite Hcf. cbn [bind].
    rewrite (fdiv_ok _ _ HsR). cbn [bind]. rewrite Hrc. cbn [bind].
    eexists. split; [reflexivity |]. field. split; assumption.
Qed.

Lemma calc_curvature_get_steer_from_curvature_witness :
  exists steer,
    get_steer_from_curvature VM_understeer 0.01 20 0.02 = Ok steer /\
    returns (calc_curvature VM_understeer steer 20 0.02) 0.01.
Proof.
  eapply (calc_curvature_get_steer_from_curvature VM_understeer 0.01 20 0.02).
  - vm_compute. reflexivity.
  - vm_compute. discriminate.
  - vm_compute. discriminate.
Defined.

(** ** The linear solve *)

Lemma Qabs_le_zero (a b : Q) : Qabs a <= Qabs b -> b == 0 -> a == 0.
Proof.
  intros Hle Hb. rewrite Hb in Hle. change (Qabs 0) with 0 in Hle.
  apply Qabs_Qle_condition in Hle. destruct Hle as [H1 H2].
  apply Qle_antisym; [exact H2 | exact H1].
Qed.

Lemma Qabs_lt_zero (a b : Q) : Qabs a < Qabs b -> ~ b == 0.
Proof.
  intros Hlt Hb. rewrite Hb in Hlt. change (Qabs 0) with 0 in Hlt.
  apply (Qlt_not_le _ _ Hlt). apply Qabs_nonneg.
Qed.

(** [solve] raises nothing but [LinAlgError]. *)
Lemma solve_raises (A B : mat22) (e : exn) :
  solve A B = Raise e -> e = LinAlgError.
Proof.
  unfold solve.
  repeat match goal with
         | |- context [if Qeq_bool ?a ?b then _ else _] =>
             destruct (Qeq_bool a b)
         end; intros H; try discriminate; now injection H.
Qed.

(** [solve] fails exactly on the matrices whose determinant is zero. *)
Lemma solve_singular_iff (A B : mat22) :
  solve A B = Raise LinAlgError <-> det22 A == 0.
Proof.
  unfold solve, det22.
  destruct (Qltb (Qabs (e00 A)) (Qabs (e10 A))) eqn:Hswap.
  - apply Qltb_lt in Hswap. apply Qabs_lt_zero in Hswap.
    destruct (Qeq_bool (e10 A) 0) eqn:Hp.
    { apply Qeq_bool_eq in Hp. contradiction. }
    destruct (Qeq_bool (e01 A - e00 A / e10 A * e11 A) 0) eqn:Hu.
    + apply Qeq_bool_eq in Hu. split; [intros _ | reflexivity].
      assert (Heq : e00 A * e11 A - e01 A * e10 A
                    == - e10 A * (e01 A - e00 A / e10 A * e11 A))
        by (field; exact Hswap).
      rewrite Heq, Hu. ring.
    + apply Qeq_bool_neq in Hu. split; [discriminate |].
      intros Hdet. exfalso. apply Hu.
      assert (Heq : e01 A - e00 A / e10 A * e11 A
                    == - (e00 A * e11 A - e01 A * e10 A) / e10 A)
        by (field; exact Hswap).
      rewrite Heq, Hdet. field. exact Hswap.
  - apply Qltb_ge in Hswap.
    destruct (Qeq_bool (e00 A) 0) eqn:Hp.
    + apply Qeq_bool_eq in Hp. split; [intros _ | reflexivity].
      rewrite (Qabs_le_zero _ _ Hswap Hp), Hp. ring.
    + apply Qeq_bool_neq in Hp.
      destruct (Qeq_bool (e11 A - e10 A / e00 A * e01 A) 0) eqn:Hu.
      * apply Qeq_bool_eq in Hu. split; [intros _ | reflexivity].
        assert (Heq : e00 A * e11 A - e01 A * e10 A
                      == e00 A * (e11 A - e10 A / e00 A * e01 A))
          by (field; exact Hp).
        rewrite Heq, Hu. ring.
      * apply Qeq_bool_neq in Hu. split; [discriminate |].
        intros Hdet. exfalso. apply Hu.
        assert (Heq : e11 A - e10 A / e00 A * e01 A
                      == (e00 A * e11 A - e01 A * e10 A) / e00 A)
          by (field; exact Hp).
        rewrite Heq, Hdet. field. exact Hp.
Qed.

(** The second pivot of the elimination, cleared of its denominator. *)
Lemma second_pivot_nonzero (p0 p1 q0 q1 : Q) :
  ~ p0 == 0 -> ~ q1 - q0 / p0 * p1 == 0 -> ~ q1 * p0 - q0 * p1 == 0.
Proof.
  intros Hp Hu Hz. apply Hu.
  assert (Heq : q1 - q0 / p0 * p1 == (q1 * p0 - q0 * p1) / p0)
    by (field; exact Hp).
  rewrite Heq, Hz. field. exact Hp.
Qed.

(** What [solve] returns solves the system: [A @ X = B]. *)
Lemma solve_correct (A B X : mat22) :
  solve A B = Ok X -> meq (mat_mul A X) B.
Proof.
  unfold solve.
  destruct (Qltb (Qabs (e00 A)) (Qabs (e10 A))) eqn:Hswap.
  - destruct (Qeq_bool (e10 A) 0) eqn:Hp; [discriminate |].
    apply Qeq_bool_neq in Hp.
    destruct (Qeq_bool (e01 A - e00 A / e10 A * e11 A) 0) eqn:Hu;
      [discriminate |].
    apply Qeq_bool_neq in Hu.
    intros H. injection H as <-. unfold meq, mat_mul. cbn.
    repeat split; field;
      (split; [exact Hp |]; intros Hz;
       apply (second_pivot_nonzero _ _ _ _ Hp Hu); rewrite <- Hz; ring).
  - destruct (Qeq_bool (e00 A) 0) eqn:Hp; [discriminate |].
    apply Qeq_bool_neq in Hp.
    destruct (Qeq_bool (e11 A - e10 A / e00 A * e01 A) 0) eqn:Hu;
      [discriminate |].
    apply Qeq_bool_neq in Hu.
    intros H. injection H as <-. unfold meq, mat_mul. cbn.
    repeat split; field;
      (split; [exact Hp |]; intros Hz;
       apply (second_pivot_nonzero _ _ _ _ Hp Hu); rewrite <- Hz; ring).
Qed.

(** ** The dynamic regime *)

(** With a mass, an inertia and a steer ratio, the matrices exist at every
    nonzero speed, with the entries of the source. *)
Lemma create_dyn_state_matrices_defined (u : Q) (VM : VehicleModel) :
  ~ u == 0 -> ~ m VM == 0 -> ~ j VM == 0 -> ~ sR VM == 0 ->
  create_dyn_state_matrices u VM
  = Ok ({| e00 := - (cF VM + cR VM) / (m VM * u);
           e01 := - (cF VM * aF VM - cR VM * aR VM) / (m VM * u) - u;
           e10 := - (cF VM * aF VM - cR VM * aR VM) / (j VM * u);
           e11 := - (cF VM * aF VM ^ 2 + cR VM * aR VM ^ 2) / (j VM * u) |},
        {| e00 := (cF VM + chi VM * cR VM) / m VM / sR VM;
           e01 := - 9.8;
           e10 := (cF VM * aF VM - chi VM * cR VM * aR VM) / j VM / sR VM;
           e11 := 0 |}).
Proof.
  intros Hu Hm Hj HsR.
  assert (Hmu : ~ m VM * u == 0).
  { intros H. apply Qmult_integral in H. tauto. }
  assert (Hju : ~ j VM * u == 0).
  { intros H. apply Qmult_integral in H. tauto. }
  unfold create_dyn_state_matrices.
  rewrite !(fdiv_ok _ _ Hmu). cbn [bind].
  rewrite !(fdiv_ok _ _ Hju). cbn [bind].
  rewrite (fdiv_ok _ _ Hm). cbn [bind].
  rewrite (fdiv_ok _ (sR VM) HsR). cbn [bind].
  rewrite (fdiv_ok _ _ Hj). cbn [bind].
  rewrite (fdiv_ok _ (sR VM) HsR). reflexivity.
Qed.

Lemma steady_state_sol_high_speed (self : VehicleModel) (sa u roll : Q) :
  0.1 < u -> steady_state_sol self sa u roll = dyn_ss_sol sa u roll self.
Proof.
  intros Hu. unfold steady_state_sol.
  now rewrite (proj2 (Qltb_lt 0.1 u) Hu).
Qed.

(** C4. Above 0.1 the steady state is the dynamic one: with [A], [B] the
    matrices built at speed [u], the call fails with the singular-matrix
    error exactly when [A] is singular, and otherwise returns the [x] with
    [A x = - B [sa, roll]], which is [0, 0] for zero inputs. *)
Theorem steady_state_sol_dynamic :
  forall (self : VehicleModel) (sa u roll : Q) (A B : mat22),
    0.1 < u ->
    create_dyn_state_matrices u self = Ok (A, B) ->
    (steady_state_sol self sa u roll = Raise LinAlgError <-> det22 A == 0) /\
    (~ det22 A == 0 ->
     exists x_ss : vec2,
       steady_state_sol self sa u roll = Ok x_ss /\
       veq (mat_vec A x_ss) (vec_neg (mat_vec B (sa, roll)))) /\
    (~ det22 A == 0 -> returns2 (steady_state_sol self 0 u 0) 0 0).
Proof.
  intros self sa u roll A B Hu Hmat.
  assert (Hdyn : forall sa' roll',
             steady_state_sol self sa' u roll'
             = (X <- solve A B ;; Ok (mat_vec (mat_neg X) (sa', roll')))).
  { intros sa' roll'. rewrite (steady_state_sol_high_speed _ _ _ _ Hu).
    unfold dyn_ss_sol. now rewrite Hmat. }
  split; [| split].
  - rewrite Hdyn, <- (solve_singular_iff A B).
    destruct (solve A B) as [X | e]; cbn [bind].
    + split; discriminate.
    + split; intros H; injection H as ->; reflexivity.
  - intros Hdet. rewrite Hdyn.
    destruct (solve A B) as [X | e] eqn:HX.
    + cbn [bind]. eexists. split; [reflexivity |].
      destruct (solve_correct _ _ _ HX) as (H00 & H01 & H10 & H11).
      unfold veq, mat_vec, mat_neg, vec_neg. cbn in *.
      rewrite <- H00, <- H01, <- H10, <- H11. split; ring.
    + exfalso. apply Hdet. apply (solve_singular_iff A B).
      now rewrite (solve_raises _ _ _ HX) in HX.
  - intros Hdet. rewrite Hdyn.
    destruct (solve A B) as [X | e] eqn:HX.
    + cbn [bind]. eexists; eexists. split; [reflexivity |].
      cbn. split; ring.
    + exfalso. apply Hdet. apply (solve_singular_iff A B).
      now rewrite (solve_raises _ _ _ HX) in HX.
Qed.

Lemma steady_state_sol_dynamic_witness :
  0.1 < 20 /\
  (exists A B : mat22,
      create_dyn_state_matrices 20 VM_understeer = Ok (A, B) /\
      ~ det22 A == 0 /\
      exists x_ss : vec2,
        steady_state_sol VM_understeer 0.1 20 0.02 = Ok x_ss /\
        veq (mat_vec A x_ss) (vec_neg (mat_vec B (0.1, 0.02)))) /\
  steady_state_sol (update_params VM_example 0 15) 0.1 20 0.02
  = Raise LinAlgError.
Proof.
  assert (Hu : 0.1 < 20) by reflexivity.
  split; [exact Hu |]. split.
  - assert (Hmat := create_dyn_state_matrices_defined 20 VM_understeer).
    eexists; eexists. split.
    + apply Hmat; vm_compute; discriminate.
    + split; [vm_compute; discriminate |].
      refine (proj1 (proj2 (steady_state_sol_dynamic
                              VM_understeer 0.1 20 0.02 _ _ Hu _)) _).
      * apply Hmat; vm_compute; discriminate.
      * vm_compute; discriminate.
  - refine (proj2 (proj1 (steady_state_sol_dynamic
                            (update_params VM_example 0 15) 0.1 20 0.02
                            _ _ Hu _)) _).
    + apply create_dyn_state_matrices_defined; vm_compute; discriminate.
    + vm_compute. reflexivity.
Defined.

(** ** The segments of the fusion estimator *)

(** With enough fuel, [range_from] lists [i], [i + step], ... below [stop]:
    as many values as Python's [len(range(i, stop, step))]. *)
Lemma range_from_spec (step : nat) :
  (0 < step)%nat ->
  forall fuel i stop : nat,
    (stop - i <= fuel)%nat ->
    range_from fuel i stop step
    = map (fun k => (i + k * step)%nat)
          (seq 0 ((stop - i + step - 1) / step)).
Proof.
  intros Hstep. induction fuel as [| fuel IH]; intros i stop Hfuel.
  - replace (stop - i + step - 1)%nat with (step - 1)%nat by lia.
    rewrite Nat.div_small by lia. reflexivity.
  - cbn [range_from]. destruct (i <? stop)%nat eqn:E.
    + apply Nat.ltb_lt in E.
      rewrite IH by lia.
      replace ((stop - i + step - 1) / step)%nat
        with (S ((stop - (i + step) + step - 1) / step)).
      * cbn [seq map]. f_equal; [lia |].
        rewrite <- seq_shift, map_map. apply map_ext. intros k. lia.
      * destruct (Nat.le_gt_cases step (stop - i)) as [Hge | Hlt].
        -- replace (stop - i + step - 1)%nat
             with (1 * step + (stop - (i + step) + step - 1))%nat by lia.
           rewrite Nat.div_add_l by lia. lia.
        -- replace (stop - (i + step) + step - 1)%nat with (step - 1)%nat by lia.
           rewrite (Nat.div_small (step - 1)) by lia.
           apply (Nat.div_unique _ _ 1 (stop - i - 1)); lia.
    + apply Nat.ltb_ge in E.
      replace (stop - i + step - 1)%nat with (step - 1)%nat by lia.
      rewrite Nat.div_small by lia. reflexivity.
Qed.

(** The segments start at 0, 5, 10, ... and there are [(n - 1) / 5] of them:
    one fewer than [n / 5] when [n] is a multiple of 5. *)
Lemma segment_starts_spec (n : nat) :
  (5 <= n)%nat ->
  segment_starts n = map (fun k => (5 * k)%nat) (seq 0 ((n - 1) / 5)).
Proof.
  intros Hn. unfold segment_starts, py_range, SEGMENT_LENGTH_3DOF.
  rewrite range_from_spec by lia.
  replace (n - 5 - 0 + 5 - 1)%nat with (n - 1)%nat by lia.
  apply map_ext. intros k. lia.
Qed.

Lemma segment_starts_length (n : nat) :
  (5 <= n)%nat -> length (segment_starts n) = ((n - 1) / 5)%nat.
Proof.
  intros Hn. rewrite (segment_starts_spec n Hn).
  now rewrite length_map, length_seq.
Qed.

(** Every segment that is processed is a full one. *)
Lemma segment_starts_full (n i : nat) :
  (5 <= n)%nat -> In i (segment_starts n) -> (i + 5 < n)%nat.
Proof.
  intros Hn Hi. rewrite (segment_starts_spec n Hn) in Hi.
  apply in_map_iff in Hi as (k & <- & Hk). apply in_seq in Hk.
  assert (H := Nat.div_mod_eq (n - 1) 5).
  assert (H' := Nat.mod_upper_bound (n - 1) 5). lia.
Qed.

(** C1. A trajectory of exactly five samples passes the length guard and
    then has no segment at all: the call returns 0.0 whatever the array
    routines, the model and the measurements are.  Ten samples give the one
    segment that starts at 0, and the segment that starts at 5 is left out. *)
Theorem five_samples_no_segment :
  segment_starts (length (log.x (log.position five_samples))) = [] /\
  (forall (np : Numpy) (self : VehicleModel)
          (a_y a_x yaw_rate u_measured sa time_horizon : Q),
      calc_curvature_3dof np self five_samples a_y a_x yaw_rate u_measured sa
                          time_horizon = Ok 0.0) /\
  segment_starts (length (log.x (log.position ten_samples))) = [0%nat].
Proof.
  repeat split.
Qed.

(** C8. With fewer than five samples in [x] or in [y] the call returns 0.0:
    nothing is raised, and the array routines, the model and the
    measurements have no say in the result. *)
Theorem calc_curvature_3dof_short_trajectory :
  forall (np : Numpy) (self : VehicleModel) (modelV2 : log.ModelDataV2)
         (a_y a_x yaw_rate u_measured sa time_horizon : Q),
    (length (log.x (log.position modelV2)) < 5)%nat \/
    (length (log.y (log.position modelV2)) < 5)%nat ->
    calc_curvature_3dof np self modelV2 a_y a_x yaw_rate u_measured sa
                        time_horizon = Ok 0.0.
Proof.
  intros np self modelV2 a_y a_x yaw_rate u_measured sa time_horizon H.
  unfold calc_curvature_3dof, SEGMENT_LENGTH_3DOF.
  destruct H as [H | H]; apply Nat.ltb_lt in H; rewrite H.
  - reflexivity.
  - now rewrite orb_true_r.
Qed.

Lemma calc_curvature_3dof_short_trajectory_witness :
  (length (log.y (log.position short_y_samples)) < 5)%nat /\
  calc_curvature_3dof np_example VM_example short_y_samples 0.3 0.1 0.02 15 0.05 2.0
  = Ok 0.0.
Proof.
  assert (H : (length (log.y (log.position short_y_samples)) < 5)%nat)
    by (cbn; lia).
  split; [exact H |].
  apply calc_curvature_3dof_short_trajectory. right. exact H.
Defined.

(** ** The time window *)

(** The loop from index [i] on, entered with the running total of [i]
    unskipped steps: it appends a prefix of the values left, stops at the
    first index whose running total has reached the horizon, and visits every
    index before that one. *)
Lemma time_window_from_prefix (times : list Q) (time_horizon : Q) :
  forall (rest : list Q) (i : nat) (acc : list Q),
    (i + length rest < length times)%nat ->
    exists k : nat,
      (k <= length rest)%nat /\
      time_window_from i rest times time_horizon (elapsed times i) acc
      = acc ++ firstn k rest /\
      (forall d : nat, (d < k)%nat -> elapsed times (i + d) < time_horizon) /\
      ((k < length rest)%nat -> time_horizon <= elapsed times (i + k)).
Proof.
  induction rest as [| c rest IH]; intros i acc Hlen.
  - exists 0%nat. cbn. rewrite app_nil_r. repeat split; lia.
  - cbn [time_window_from].
    destruct (Qle_bool time_horizon (elapsed times i)) eqn:Hstop.
    + apply Qle_bool_iff in Hstop.
      exists 0%nat. cbn [firstn length]. rewrite app_nil_r, Nat.add_0_r.
      repeat split; [lia | lia | intros _; exact Hstop].
    + assert (Hlt : elapsed times i < time_horizon).
      { apply Qnot_le_lt. intros H. apply Qle_bool_iff in H. congruence. }
      cbn [length] in Hlen.
      assert (Hin : (i <? length times - 1)%nat = true)
        by (apply Nat.ltb_lt; lia).
      rewrite Hin.
      destruct (IH (S i) (acc ++ [c])) as (k & Hk & Heq & Hbefore & Hat);
        [lia |].
      exists (S k). cbn [firstn length]. repeat split.
      * lia.
      * change (elapsed times i + (nth (i + 1) times 0 - nth i times 0))
          with (elapsed times (S i)).
        rewrite Heq, <- app_assoc. reflexivity.
      * intros [| d] Hd.
        -- now rewrite Nat.add_0_r.
        -- rewrite Nat.add_succ_r. apply (Hbefore d). lia.
      * intros Hk'. rewrite Nat.add_succ_r. apply Hat. lia.
Qed.

(** C2. The values are collected in order, each with its delta added to
    the running total: what is kept is the prefix of the corrected values
    that ends where the running total, as found on arrival, has reached the
    horizon.  A value is kept whenever the total found on arrival is below
    the horizon, also when its own delta takes the total to the horizon or
    beyond; the values left out are those from the first arrival with the
    horizon reached. *)
Theorem time_window_prefix :
  forall (combined_curvatures times : list Q) (time_horizon : Q),
    (length combined_curvatures < length times)%nat ->
    exists k : nat,
      (k <= length combined_curvatures)%nat /\
      time_window combined_curvatures times time_horizon
      = firstn k combined_curvatures /\
      (forall d : nat, (d < k)%nat -> elapsed times d < time_horizon) /\
      ((k < length combined_curvatures)%nat ->
       time_horizon <= elapsed times k).
Proof.
  intros cs times time_horizon Hlen.
  destruct (time_window_from_prefix times time_horizon cs 0 [])
    as (k & Hk & Heq & Hbefore & Hat); [cbn; lia |].
  exists k. repeat split; assumption.
Qed.

Lemma time_window_prefix_witness :
  (length [1; 2; 3] < length [0; 3; 4; 5])%nat /\
  exists k : nat,
    (k <= length [1; 2; 3])%nat /\
    time_window [1; 2; 3] [0; 3; 4; 5] 2 = firstn k [1; 2; 3] /\
    (forall d : nat, (d < k)%nat -> elapsed [0; 3; 4; 5] d < 2) /\
    ((k < length [1; 2; 3])%nat -> 2 <= elapsed [0; 3; 4; 5] k).
Proof.
  assert (H : (length [1; 2; 3] < length [0; 3; 4; 5])%nat) by (cbn; lia).
  split; [exact H |].
  exact (time_window_prefix [1; 2; 3] [0; 3; 4; 5] 2 H).
Defined.

(** The first delta, 3 s, takes the running total past a horizon of 2 s:
    the first value is kept all the same, and the loop stops at the second. *)
Example time_window_keeps_crossing_value :
  time_window [1; 2; 3] [0; 3; 4; 5] 2 = [1] /\
  elapsed [0; 3; 4; 5] 0 < 2 /\ 2 <= elapsed [0; 3; 4; 5] 1.
Proof.
  split; [reflexivity |]. split; [reflexivity |]. vm_compute. discriminate.
Qed.

(** The segment loop adds one value per segment to each list. *)
Lemma segment_loop_length (body : nat -> result (Q * Q)) :
  forall (starts : list nat) (cbs c3ds cbs' c3ds' : list Q),
    segment_loop body starts cbs c3ds = Ok (cbs', c3ds') ->
    length cbs' = (length cbs + length starts)%nat /\
    length c3ds' = (length c3ds + length starts)%nat.
Proof.
  induction starts as [| i starts IH]; intros cbs c3ds cbs' c3ds' H.
  - cbn in H. injection H as <- <-. cbn. lia.
  - cbn [segment_loop] in H.
    destruct (body i) as [[cb c3d] |]; [| discriminate].
    cbn [bind] in H. apply IH in H. rewrite !length_app in H. cbn in *. lia.
Qed.

(** In a call on sequences of equal length, the time-windowing loop never
    runs out of timestamps: there are fewer corrected values than
    samples. *)
Lemma combined_curvatures_shorter (np : Numpy) (self : VehicleModel)
    (modelV2 : log.ModelDataV2) (a_y a_x yaw_rate u_measured sa : Q)
    (combined_curvatures : list Q) :
  (5 <= length (log.x (log.position modelV2)))%nat ->
  length (log.t (log.position modelV2))
  = length (log.x (log.position modelV2)) ->
  combined_curvatures_3dof np self modelV2 a_y a_x yaw_rate u_measured sa
  = Ok combined_curvatures ->
  (length combined_curvatures < length (log.t (log.position modelV2)))%nat.
Proof.
  intros Hn Ht. unfold combined_curvatures_3dof.
  destruct (segment_loop _ _ [] []) as [[cbs c3ds] |] eqn:Hloop;
    [| discriminate].
  cbn [bind]. intros H. injection H as <-.
  apply segment_loop_length in Hloop as [Hb H3].
  unfold combine_curvatures. rewrite length_map, length_combine, Hb, H3.
  rewrite (segment_starts_length _ Hn), Ht. cbn [length].
  assert (H := Nat.div_mod_eq (length (log.x (log.position modelV2)) - 1) 5).
  lia.
Qed.


(** Ten samples: the one segment gives one corrected value, which is the
    result; with a baseline of 0.25 and a 3-DoF curvature of
    0.013344 / 15.04 it is 352083 / 940000. *)
Example calc_curvature_3dof_ten_samples :
  returns (calc_curvature_3dof np_example VM_understeer ten_samples
                               0.3 0.1 0.02 15 0.05 2.0)
          (352083 # 940000).
Proof.
  eexists. split; vm_compute; reflexivity.
Qed.

(** * Further properties *)

(** ** Reachable models *)

(** X1. A model is reachable exactly when it is the constructed model
    recalibrated once: only the last [update_params] shows, earlier ones
    leave no trace. *)
Theorem reachable_last_update :
  forall VM : VehicleModel,
    reachable VM <->
    exists (CP : CarParams) (stiffness_factor steer_ratio : Q),
      VM = update_params (init CP) stiffness_factor steer_ratio.
Proof.
  intros VM. split.
  - intros H. induction H as [CP | VM sf sr _ (CP & sf' & sr' & ->)].
    + exists CP, 1.0, (steerRatio CP). reflexivity.
    + exists CP, sf, sr. reflexivity.
  - intros (CP & sf & sr & ->). apply reach_update, reach_init.
Qed.

Lemma reachable_last_update_witness :
  exists (CP : CarParams) (stiffness_factor steer_ratio : Q),
    update_params (update_params (init CP_example) 2 10) 0.5 (-3)
    = update_params (init CP) stiffness_factor steer_ratio.
Proof.
  apply (proj1 (reachable_last_update
                  (update_params (update_params (init CP_example) 2 10)
                                 0.5 (-3)))).
  apply reach_update, reach_update, reach_init.
Defined.

(** The rear axle distance of a reachable model is the rest of the
    wheelbase. *)
Lemma reachable_geometry (VM : VehicleModel) :
  reachable VM -> aR VM = l VM - aF VM.
Proof.
  intros H. induction H as [CP | VM sf sr _ IH]; [reflexivity | exact IH].
Qed.

(** ** Where the curvature mappings have a value *)


Lemma slip_denominator_nonzero (VM : VehicleModel) :
  ~ l VM ^ 2 * cF VM * cR VM == 0 <->
  ~ l VM == 0 /\ ~ cF VM == 0 /\ ~ cR VM == 0.
Proof.
  split.
  - intros H. repeat split; intros Hz; apply H; rewrite Hz; ring.
  - intros (Hl & HF & HR) H.
    apply Qmult_integral in H as [H | H]; [| contradiction].
    apply Qmult_integral in H as [H | H]; [| contradiction].
    assert (Hsq : l VM * l VM == 0) by (rewrite <- H; ring).
    apply Qmult_integral in Hsq as [Hz | Hz]; contradiction.
Qed.



(** ** Curvature, steering angle and yaw rate *)

Lemma calc_curvature_value (self : VehicleModel) (sa u roll cf rc : Q) :
  curvature_factor self u = Ok cf ->
  roll_compensation self roll u = Ok rc ->
  ~ sR self == 0 ->
  calc_curvature self sa u roll = Ok (cf * sa / sR self + rc).
Proof.
  intros Hcf Hrc HsR. unfold calc_curvature.
  rewrite Hcf. cbn [bind]. rewrite (fdiv_ok _ _ HsR). cbn [bind].
  now rewrite Hrc.
Qed.

Lemma get_steer_from_curvature_value (self : VehicleModel)
    (curv u roll cf rc : Q) :
  curvature_factor self u = Ok cf ->
  roll_compensation self roll u = Ok rc ->
  ~ cf == 0 ->
  get_steer_from_curvature self curv u roll
  = Ok ((curv - rc) * sR self * 1.0 / cf).
Proof.
  intros Hcf Hrc Hnz. unfold get_steer_from_curvature.
  rewrite Hrc, Hcf. cbn [bind]. now apply fdiv_ok.
Qed.

(** The roll compensation is a multiple of the roll, by a factor that the
    model and the speed fix. *)
Lemma roll_compensation_linear (self : VehicleModel) (u cf : Q) :
  curvature_factor self u = Ok cf ->
  exists k : Q, forall roll : Q,
    exists rc, roll_compensation self roll u = Ok rc /\ rc == k * roll.
Proof.
  intros Hcf.
  destruct (roll_compensation_defined self 0 u cf Hcf) as [rc0 H0].
  unfold roll_compensation in *.
  destruct (calc_slip_factor self) as [sf |]; [| discriminate].
  cbn [bind] in *.
  destruct (Qltb (Qabs sf) 1e-6).
  - exists 0. intros roll. exists 0. split; [reflexivity | ring].
  - destruct (fdiv 1 sf) as [t |]; [| discriminate]. cbn [bind] in *.
    apply fdiv_inv in H0 as [Hd _].
    exists (ACCELERATION_DUE_TO_GRAVITY / (t - u ^ 2)). intros roll.
    eexists. split; [apply (fdiv_ok _ _ Hd) |]. field. exact Hd.
Qed.

(** X3. The curvature of a steering angle gives that steering angle back:
    [get_steer_from_curvature] undoes [calc_curvature], where the curvature
    factor is defined and nonzero and the steer ratio is nonzero. *)
Theorem get_steer_from_curvature_calc_curvature :
  forall (self : VehicleModel) (sa u roll cf : Q),
    curvature_factor self u = Ok cf -> ~ cf == 0 -> ~ sR self == 0 ->
    exists curv,
      calc_curvature self sa u roll = Ok curv /\
      returns (get_steer_from_curvature self curv u roll) sa.
Proof.
  intros self sa u roll cf Hcf Hnz HsR.
  destruct (roll_compensation_defined self roll u cf Hcf) as [rc Hrc].
  eexists. split; [apply (calc_curvature_value _ _ _ _ _ _ Hcf Hrc HsR) |].
  rewrite (get_steer_from_curvature_value _ _ _ _ _ _ Hcf Hrc Hnz).
  eexists. split; [reflexivity |]. field. split; assumption.
Qed.

Lemma get_steer_from_curvature_calc_curvature_witness :
  exists curv,
    calc_curvature VM_understeer 0.1 20 0.02 = Ok curv /\
    returns (get_steer_from_curvature VM_understeer curv 20 0.02) 0.1.
Proof.
  eapply (get_steer_from_curvature_calc_curvature VM_understeer 0.1 20 0.02).
  - vm_compute. reflexivity.
  - vm_compute. discriminate.
  - vm_compute. discriminate.
Defined.

(** X4. At a nonzero speed the steering angle computed for a yaw rate
    gives that yaw rate back: [yaw_rate] undoes [get_steer_from_yaw_rate]. *)
Theorem yaw_rate_get_steer_from_yaw_rate :
  forall (self : VehicleModel) (desired u roll cf : Q),
    ~ u == 0 ->
    curvature_factor self u = Ok cf -> ~ cf == 0 -> ~ sR self == 0 ->
    exists steer,
      get_steer_from_yaw_rate self desired u roll = Ok steer /\
      returns (yaw_rate self steer u roll) desired.
Proof.
  intros self desired u roll cf Hu Hcf Hnz HsR.
  destruct (roll_compensation_defined self roll u cf Hcf) as [rc Hrc].
  unfold get_steer_from_yaw_rate, yaw_rate.
  rewrite (fdiv_ok _ _ Hu). cbn [bind].
  rewrite (get_steer_from_curvature_value _ _ _ _ _ _ Hcf Hrc Hnz).
  eexists. split; [reflexivity |].
  rewrite (calc_curvature_value _ _ _ _ _ _ Hcf Hrc HsR). cbn [bind].
  eexists. split; [reflexivity |]. field. repeat split; assumption.
Qed.

Lemma yaw_rate_get_steer_from_yaw_rate_witness :
  exists steer,
    get_steer_from_yaw_rate VM_understeer 0.2 20 0.02 = Ok steer /\
    returns (yaw_rate VM_understeer steer 20 0.02) 0.2.
Proof.
  eapply (yaw_rate_get_steer_from_yaw_rate VM_understeer 0.2 20 0.02).
  - vm_compute. discriminate.
  - vm_compute. reflexivity.
  - vm_compute. discriminate.
  - vm_compute. discriminate.
Defined.

(** X5. At zero speed [get_steer_from_yaw_rate] raises
    [ZeroDivisionError] whatever the model, the yaw rate and the roll are,
    while [yaw_rate] returns zero wherever the curvature has a value. *)
Theorem zero_speed_yaw_rate :
  forall (self : VehicleModel) (desired sa roll : Q),
    get_steer_from_yaw_rate self desired 0 roll = Raise ZeroDivisionError /\
    (forall curv, calc_curvature self sa 0 roll = Ok curv ->
                  returns (yaw_rate self sa 0 roll) 0).
Proof.
  intros self desired sa roll. split.
  - reflexivity.
  - intros curv H. unfold yaw_rate. rewrite H. cbn [bind].
    eexists. split; [reflexivity | ring].
Qed.

Lemma zero_speed_yaw_rate_witness :
  get_steer_from_yaw_rate VM_understeer 0.2 0 0.02 = Raise ZeroDivisionError /\
  returns (yaw_rate VM_understeer 0.1 0 0.02) 0.
Proof.
  destruct (zero_speed_yaw_rate VM_understeer 0.2 0.1 0.02) as [Hraise Hzero].
  split; [exact Hraise |].
  destruct (calc_curvature VM_understeer 0.1 0 0.02) as [curv |] eqn:E.
  - exact (Hzero curv eq_refl).
  - vm_compute in E. discriminate.
Defined.

(** X6. The curvature is additive in the pair of steering angle and roll:
    the curvature of two inputs added is the sum of their curvatures. *)
Theorem calc_curvature_superposition :
  forall (self : VehicleModel) (sa1 sa2 u roll1 roll2 cf : Q),
    curvature_factor self u = Ok cf -> ~ sR self == 0 ->
    exists c1 c2 c12,
      calc_curvature self sa1 u roll1 = Ok c1 /\
      calc_curvature self sa2 u roll2 = Ok c2 /\
      calc_curvature self (sa1 + sa2) u (roll1 + roll2) = Ok c12 /\
      c12 == c1 + c2.
Proof.
  intros self sa1 sa2 u roll1 roll2 cf Hcf HsR.
  destruct (roll_compensation_linear self u cf Hcf) as [k Hk].
  destruct (Hk roll1) as (rc1 & Hrc1 & E1).
  destruct (Hk roll2) as (rc2 & Hrc2 & E2).
  destruct (Hk (roll1 + roll2)) as (rc12 & Hrc12 & E12).
  do 3 eexists.
  split; [apply (calc_curvature_value _ _ _ _ _ _ Hcf Hrc1 HsR) |].
  split; [apply (calc_curvature_value _ _ _ _ _ _ Hcf Hrc2 HsR) |].
  split; [apply (calc_curvature_value _ _ _ _ _ _ Hcf Hrc12 HsR) |].
  rewrite E1, E2, E12. field. exact HsR.
Qed.

Lemma calc_curvature_superposition_witness :
  exists c1 c2 c12,
    calc_curvature VM_understeer 0.1 20 0.02 = Ok c1 /\
    calc_curvature VM_understeer (-0.3) 20 0.01 = Ok c2 /\
    calc_curvature VM_understeer (0.1 + -0.3) 20 (0.02 + 0.01) = Ok c12 /\
    c12 == c1 + c2.
Proof.
  eapply (calc_curvature_superposition VM_understeer 0.1 (-0.3) 20 0.02 0.01).
  - vm_compute. reflexivity.
  - vm_compute. discriminate.
Defined.

(** X7. For a neutral-steer model ([cF*aF = cR*aR]) the curvature is
    [(1 - chi)*sa/(l*sR)] at every speed and for every roll: neither the
    speed nor the roll changes it. *)
Theorem calc_curvature_neutral_steer :
  forall (self : VehicleModel) (sa u roll : Q),
    cF self * aF self == cR self * aR self ->
    ~ l self == 0 -> ~ cF self == 0 -> ~ cR self == 0 -> ~ sR self == 0 ->
    returns (calc_curvature self sa u roll)
            ((1 - chi self) * sa / (l self * sR self)).
Proof.
  intros self sa u roll Hneutral Hl HF HR HsR.
  assert (Hden : ~ l self ^ 2 * cF self * cR self == 0)
    by (apply slip_denominator_nonzero; auto).
  set (sf := m self * (cF self * aF self - cR self * aR self)
             / (l self ^ 2 * cF self * cR self)).
  assert (Hsf : calc_slip_factor self = Ok sf)
    by (unfold calc_slip_factor; now rewrite (fdiv_ok _ _ Hden)).
  assert (Hsf0 : sf == 0).
  { unfold sf. rewrite Hneutral. field. repeat split; assumption. }
  assert (Hd : ~ 1 - sf * u ^ 2 == 0).
  { rewrite Hsf0. intros H. ring_simplify in H. discriminate H. }
  assert (Hcf : curvature_factor self u
                = Ok ((1 - chi self) / (1 - sf * u ^ 2) / l self)).
  { unfold curvature_factor. rewrite Hsf. cbn [bind].
    rewrite (fdiv_ok _ _ Hd). cbn [bind]. now rewrite (fdiv_ok _ _ Hl). }
  assert (Hrc : roll_compensation self roll u = Ok 0).
  { unfold roll_compensation. rewrite Hsf. cbn [bind].
    assert (Hsmall : Qabs sf < 1e-6) by (rewrite Hsf0; reflexivity).
    now rewrite (proj2 (Qltb_lt _ _) Hsmall). }
  rewrite (calc_curvature_value _ _ _ _ _ _ Hcf Hrc HsR).
  eexists. split; [reflexivity |].
  assert (Hone : 1 - sf * u ^ 2 == 1) by (rewrite Hsf0; ring).
  rewrite Hone. field. split; assumption.
Qed.

Lemma calc_curvature_neutral_steer_witness :
  returns (calc_curvature VM_example 0.3 25 0.04)
          ((1 - chi VM_example) * 0.3 / (l VM_example * sR VM_example)).
Proof.
  apply (calc_curvature_neutral_steer VM_example 0.3 25 0.04);
    vm_compute; try discriminate; reflexivity.
Defined.

(** ** The 2-state system and its steady state *)

(** X8. The 2-state matrices exist exactly when the speed, the mass, the
    inertia and the steer ratio are all nonzero; in every other case the
    builder raises [ZeroDivisionError]. *)
Theorem create_dyn_state_matrices_defined_iff :
  forall (u : Q) (VM : VehicleModel),
    ((exists A B, create_dyn_state_matrices u VM = Ok (A, B)) <->
     ~ u == 0 /\ ~ m VM == 0 /\ ~ j VM == 0 /\ ~ sR VM == 0) /\
    ((forall A B, create_dyn_state_matrices u VM <> Ok (A, B)) ->
     create_dyn_state_matrices u VM = Raise ZeroDivisionError).
Proof.
  intros u VM. split; [split |].
  - intros (A & B & H). unfold create_dyn_state_matrices in H.
    fdiv_cases H.
    repeat split; try assumption.
    intros Hz. apply E. rewrite Hz. ring.
  - intros (Hu & Hm & Hj & HsR).
    rewrite (create_dyn_state_matrices_defined u VM Hu Hm Hj HsR).
    do 2 eexists. reflexivity.
  - intros Hnone. unfold create_dyn_state_matrices, fdiv in *.
    repeat match goal with
           | |- context [if Qeq_bool ?a ?b then _ else _] =>
               destruct (Qeq_bool a b); cbn [bind] in *
           end; try reflexivity.
    exfalso. eapply Hnone. reflexivity.
Qed.

Lemma create_dyn_state_matrices_defined_iff_witness :
  (exists A B, create_dyn_state_matrices 20 VM_understeer = Ok (A, B)) /\
  create_dyn_state_matrices 0 VM_understeer = Raise ZeroDivisionError.
Proof.
  split.
  - apply (proj1 (create_dyn_state_matrices_defined_iff 20 VM_understeer)).
    repeat split; vm_compute; discriminate.
  - apply (proj2 (create_dyn_state_matrices_defined_iff 0 VM_understeer)).
    intros A B. vm_compute. discriminate.
Defined.

(** Above 0.1, with the matrices built, the steady state is the negated
    solution of the linear system applied to the inputs. *)
Lemma steady_state_sol_solve (self : VehicleModel) (sa u roll : Q)
    (A B : mat22) :
  0.1 < u ->
  create_dyn_state_matrices u self = Ok (A, B) ->
  steady_state_sol self sa u roll
  = (X <- solve A B ;; Ok (mat_vec (mat_neg X) (sa, roll))).
Proof.
  intros Hu Hmat. rewrite (steady_state_sol_high_speed _ _ _ _ Hu).
  unfold dyn_ss_sol. now rewrite Hmat.
Qed.

(** The determinant of the system matrix, cleared of its denominators. *)
Lemma det22_dyn (u : Q) (VM : VehicleModel) (A B : mat22) :
  ~ u == 0 -> ~ m VM == 0 -> ~ j VM == 0 -> ~ sR VM == 0 ->
  create_dyn_state_matrices u VM = Ok (A, B) ->
  det22 A * (m VM * j VM * u ^ 2)
  == cF VM * cR VM * (aF VM + aR VM) ^ 2
     - m VM * (cF VM * aF VM - cR VM * aR VM) * u ^ 2.
Proof.
  intros Hu Hm Hj HsR Hmat.
  rewrite (create_dyn_state_matrices_defined u VM Hu Hm Hj HsR) in Hmat.
  injection Hmat as <- <-. unfold det22. cbn.
  field. repeat split; assumption.
Qed.

Lemma speed_nonzero (u : Q) : 0.1 < u -> ~ u == 0.
Proof.
  intros Hu Hz. rewrite Hz in Hu. discriminate Hu.
Qed.

(** The system matrix is singular exactly at the critical speed. *)
Lemma det22_dyn_zero_iff (u : Q) (VM : VehicleModel) (A B : mat22) :
  ~ u == 0 -> ~ m VM == 0 -> ~ j VM == 0 -> ~ sR VM == 0 ->
  create_dyn_state_matrices u VM = Ok (A, B) ->
  det22 A == 0 <->
  cF VM * cR VM * (aF VM + aR VM) ^ 2
  == m VM * (cF VM * aF VM - cR VM * aR VM) * u ^ 2.
Proof.
  intros Hu Hm Hj HsR Hmat.
  assert (Hdet := det22_dyn u VM A B Hu Hm Hj HsR Hmat).
  assert (Hscale : ~ m VM * j VM * u ^ 2 == 0).
  { intros H. apply Qmult_integral in H as [H | H].
    - apply Qmult_integral in H as [H | H]; contradiction.
    - assert (Hsq : u * u == 0) by (rewrite <- H; ring).
      apply Qmult_integral in Hsq as [Hz | Hz]; contradiction. }
  split.
  - intros Hz. rewrite Hz, Qmult_0_l in Hdet.
    apply Qplus_inj_r
      with (z := - (m VM * (cF VM * aF VM - cR VM * aR VM) * u ^ 2)).
    rewrite Qplus_opp_r. symmetry. exact Hdet.
  - intros Hcrit. rewrite Hcrit in Hdet.
    assert (H0 : det22 A * (m VM * j VM * u ^ 2) == 0)
      by (rewrite Hdet; ring).
    apply Qmult_integral in H0 as [H0 | H0]; [exact H0 | contradiction].
Qed.

(** A regular system has a solution. *)
Lemma solve_regular (A B : mat22) :
  ~ det22 A == 0 -> exists X, solve A B = Ok X.
Proof.
  intros Hdet. destruct (solve A B) as [X | e] eqn:HX; [now eexists |].
  exfalso. apply Hdet, (solve_singular_iff A B).
  now rewrite (solve_raises _ _ _ HX) in HX.
Qed.



(** X10. A model with positive mass and stiffnesses that does not
    oversteer ([cF*aF <= cR*aR]) has a steady state at every speed above
    0.1: the call raises nothing. *)
Theorem steady_state_sol_understeer_total :
  forall (self : VehicleModel) (sa u roll : Q),
    0.1 < u -> 0 < m self -> ~ j self == 0 -> ~ sR self == 0 ->
    0 < cF self -> 0 < cR self -> ~ aF self + aR self == 0 ->
    cF self * aF self <= cR self * aR self ->
    exists x_ss, steady_state_sol self sa u roll = Ok x_ss.
Proof.
  intros self sa u roll Hu Hm Hj HsR HF HR Hl Hunder.
  assert (Hu0 := speed_nonzero u Hu).
  assert (Hm0 : ~ m self == 0) by (intros H; rewrite H in Hm; discriminate Hm).
  assert (Hmat := create_dyn_state_matrices_defined u self Hu0 Hm0 Hj HsR).
  assert (Hiff := det22_dyn_zero_iff u self _ _ Hu0 Hm0 Hj HsR Hmat).
  rewrite (steady_state_sol_solve _ _ _ _ _ _ Hu Hmat).
  set (A := {| e00 := _ |}) in Hiff |- *.
  set (B := {| e00 := (cF self + chi self * cR self) / m self / sR self |}).
  destruct (solve_regular A B) as [X HX].
  - rewrite Hiff. intros Hcrit.
    assert (Hsq : 0 < (aF self + aR self) ^ 2).
    { assert (Heq : (aF self + aR self) ^ 2
                    == (aF self + aR self) * (aF self + aR self)) by ring.
      rewrite Heq.
      destruct (Qlt_le_dec 0 (aF self + aR self)) as [Hpos | Hneg].
      - now apply Qmult_lt_0_compat.
      - assert (Hlt : aF self + aR self < 0).
        { apply Qle_lteq in Hneg as [Hlt | Heq0]; [exact Hlt | contradiction]. }
        nra. }
    assert (Hlhs : 0 < cF self * cR self * (aF self + aR self) ^ 2).
    { apply Qmult_lt_0_compat; [now apply Qmult_lt_0_compat | exact Hsq]. }
    assert (Husq : 0 <= u ^ 2).
    { assert (Heq : u ^ 2 == u * u) by ring. rewrite Heq. nra. }
    assert (Hrhs : m self * (cF self * aF self - cR self * aR self) * u ^ 2
                   <= 0).
    { assert (Hd : cF self * aF self - cR self * aR self <= 0) by lra.
      assert (Hmd : m self * (cF self * aF self - cR self * aR self) <= 0).
      { rewrite <- (Qmult_0_r (m self)). apply Qmult_le_l; assumption. }
      rewrite <- (Qmult_0_l (u ^ 2)). apply Qmult_le_compat_r; assumption. }
    rewrite Hcrit in Hlhs. apply (Qlt_not_le _ _ Hlhs Hrhs).
  - rewrite HX. cbn [bind]. now eexists.
Qed.

Lemma steady_state_sol_understeer_total_witness :
  exists x_ss, steady_state_sol VM_understeer 0.1 60 0.02 = Ok x_ss.
Proof.
  apply (steady_state_sol_understeer_total VM_understeer 0.1 60 0.02);
    vm_compute; try discriminate; reflexivity.
Defined.

(** Cramer's rule for the second unknown of [A x = - B [sa, roll]]. *)
Lemma steady_yaw_cramer (A B X : mat22) (sa roll : Q) :
  meq (mat_mul A X) B ->
  det22 A * snd (mat_vec (mat_neg X) (sa, roll))
  == e10 A * (e00 B * sa + e01 B * roll)
     - e00 A * (e10 B * sa + e11 B * roll).
Proof.
  intros (H00 & H01 & H10 & H11).
  rewrite <- H00, <- H01, <- H10, <- H11.
  unfold det22, mat_vec, mat_neg, mat_mul. cbn. ring.
Qed.

(** The yaw rate of the dynamic solution in closed form, at any nonzero
    speed that is not the critical one. *)
Lemma dyn_ss_sol_yaw_rate (sa u roll : Q) (VM : VehicleModel) :
  ~ u == 0 -> ~ m VM == 0 -> ~ j VM == 0 -> ~ sR VM == 0 ->
  ~ cF VM * cR VM * (aF VM + aR VM) ^ 2
    == m VM * (cF VM * aF VM - cR VM * aR VM) * u ^ 2 ->
  exists v r,
    dyn_ss_sol sa u roll VM = Ok (v, r) /\
    r == (cF VM * cR VM * (aF VM + aR VM) * (1 - chi VM) * u * sa / sR VM
          + 9.8 * m VM * (cF VM * aF VM - cR VM * aR VM) * u * roll)
         / (cF VM * cR VM * (aF VM + aR VM) ^ 2
            - m VM * (cF VM * aF VM - cR VM * aR VM) * u ^ 2).
Proof.
  intros Hu Hm Hj HsR Hcrit.
  assert (Hmat := create_dyn_state_matrices_defined u VM Hu Hm Hj HsR).
  assert (Hiff := det22_dyn_zero_iff u VM _ _ Hu Hm Hj HsR Hmat).
  assert (HdetK := det22_dyn u VM _ _ Hu Hm Hj HsR Hmat).
  unfold dyn_ss_sol. rewrite Hmat. cbn [bind].
  match goal with
  | |- context [solve ?A0 ?B0] =>
      destruct (solve_regular A0 B0 (proj2 (not_iff_compat Hiff) Hcrit))
      as [X HX]
  end.
  rewrite HX. cbn [bind].
  assert (Hcr := steady_yaw_cramer _ _ _ sa roll (solve_correct _ _ _ HX)).
  exists (fst (mat_vec (mat_neg X) (sa, roll))),
         (snd (mat_vec (mat_neg X) (sa, roll))).
  split; [reflexivity |].
  set (r := snd (mat_vec (mat_neg X) (sa, roll))) in *.
  set (P := cF VM * cR VM * (aF VM + aR VM) ^ 2
            - m VM * (cF VM * aF VM - cR VM * aR VM) * u ^ 2) in *.
  assert (HP : ~ P == 0).
  { intros Hz. apply Hcrit.
    apply Qplus_inj_r
      with (z := - (m VM * (cF VM * aF VM - cR VM * aR VM) * u ^ 2)).
    rewrite Qplus_opp_r. exact Hz. }
  apply (Qmult_inj_r _ _ P HP).
  rewrite <- HdetK at 1.
  rewrite Qmult_assoc, (Qmult_comm r), Hcr.
  cbn [e00 e01 e10 e11].
  field. repeat split; assumption.
Qed.

(** X11. Above 0.1 and away from the critical speed the steady-state yaw
    rate has the closed form
    [u*(cF*cR*(aF+aR)*(1-chi)*sa/sR + 9.8*m*(cF*aF-cR*aR)*roll)
     / (cF*cR*(aF+aR)^2 - m*(cF*aF-cR*aR)*u^2)]. *)
Theorem steady_state_sol_yaw_rate_closed_form :
  forall (self : VehicleModel) (sa u roll : Q),
    0.1 < u -> ~ m self == 0 -> ~ j self == 0 -> ~ sR self == 0 ->
    ~ cF self * cR self * (aF self + aR self) ^ 2
      == m self * (cF self * aF self - cR self * aR self) * u ^ 2 ->
    exists v r,
      steady_state_sol self sa u roll = Ok (v, r) /\
      r == (cF self * cR self * (aF self + aR self) * (1 - chi self) * u * sa
            / sR self
            + 9.8 * m self * (cF self * aF self - cR self * aR self) * u * roll)
           / (cF self * cR self * (aF self + aR self) ^ 2
              - m self * (cF self * aF self - cR self * aR self) * u ^ 2).
Proof.
  intros self sa u roll Hu Hm Hj HsR Hcrit.
  rewrite (steady_state_sol_high_speed _ _ _ _ Hu).
  apply dyn_ss_sol_yaw_rate; try assumption.
  now apply speed_nonzero.
Qed.

Lemma steady_state_sol_yaw_rate_closed_form_witness :
  exists v r,
    steady_state_sol VM_understeer 0.1 20 0.02 = Ok (v, r) /\
    r == (cF VM_understeer * cR VM_understeer
          * (aF VM_understeer + aR VM_understeer) * (1 - chi VM_understeer)
          * 20 * 0.1 / sR VM_understeer
          + 9.8 * m VM_understeer
            * (cF VM_understeer * aF VM_understeer
               - cR VM_understeer * aR VM_understeer) * 20 * 0.02)
         / (cF VM_understeer * cR VM_understeer
            * (aF VM_understeer + aR VM_understeer) ^ 2
            - m VM_understeer
              * (cF VM_understeer * aF VM_understeer
                 - cR VM_understeer * aR VM_understeer) * 20 ^ 2).
Proof.
  apply (steady_state_sol_yaw_rate_closed_form VM_understeer 0.1 20 0.02);
    vm_compute; try discriminate; reflexivity.
Defined.

(** X12. Above 0.1 the yaw rate of the steady state is the yaw rate of the
    curvature mapping, [calc_curvature * u], for a model whose rear axle
    distance is the rest of the wheelbase, away from the critical speed, and
    with a slip factor that is zero or at least 1e-6 in absolute value (in
    between the roll compensation is cut to zero). *)
Theorem steady_state_sol_yaw_rate_is_yaw_rate :
  forall (self : VehicleModel) (sa u roll : Q),
    0.1 < u -> ~ m self == 0 -> ~ j self == 0 -> ~ sR self == 0 ->
    ~ l self == 0 -> ~ cF self == 0 -> ~ cR self == 0 ->
    aR self == l self - aF self ->
    ~ l self ^ 2 * cF self * cR self
      == m self * (cF self * aF self - cR self * aR self) * u ^ 2 ->
    cF self * aF self - cR self * aR self == 0 \/
    1e-6 <= Qabs (m self * (cF self * aF self - cR self * aR self)
                  / (l self ^ 2 * cF self * cR self)) ->
    exists v r yr,
      steady_state_sol self sa u roll = Ok (v, r) /\
      yaw_rate self sa u roll = Ok yr /\
      r == yr.
Proof.
  intros self sa u roll Hu Hm Hj HsR Hl HF HR Hgeo Hcrit Hslip.
  assert (Hu0 := speed_nonzero u Hu).
  assert (Hl' : l self == aF self + aR self) by (rewrite Hgeo; ring).
  assert (Hl0 : ~ aF self + aR self == 0) by (now rewrite <- Hl').
  assert (Hden : ~ l self ^ 2 * cF self * cR self == 0)
    by (apply slip_denominator_nonzero; auto).
  assert (Hcrit' : ~ cF self * cR self * (aF self + aR self) ^ 2
                     == m self * (cF self * aF self - cR self * aR self)
                        * u ^ 2).
  { intros Hz. apply Hcrit. rewrite Hl', <- Hz. ring. }
  assert (HP : ~ (aF self + aR self) ^ 2 * cF self * cR self
                 - u ^ 2 * (m self * (cF self * aF self - cR self * aR self))
                 == 0).
  { intros Hz. apply Hcrit'.
    apply Qplus_inj_r
      with (z := - (m self * (cF self * aF self - cR self * aR self) * u ^ 2)).
    rewrite Qplus_opp_r, <- Hz. ring. }
  set (sf := m self * (cF self * aF self - cR self * aR self)
             / (l self ^ 2 * cF self * cR self)) in *.
  assert (Hsf : calc_slip_factor self = Ok sf)
    by (unfold calc_slip_factor; now rewrite (fdiv_ok _ _ Hden)).
  assert (Hd : ~ 1 - sf * u ^ 2 == 0).
  { intros Hz. apply Hcrit.
    assert (Heq : l self ^ 2 * cF self * cR self
                  - m self * (cF self * aF self - cR self * aR self) * u ^ 2
                  == (1 - sf * u ^ 2) * (l self ^ 2 * cF self * cR self))
      by (unfold sf; field; repeat split; assumption).
    rewrite Hz, Qmult_0_l in Heq.
    apply Qplus_inj_r
      with (z := - (m self * (cF self * aF self - cR self * aR self) * u ^ 2)).
    rewrite Qplus_opp_r. exact Heq. }
  assert (Hcf : curvature_factor self u
                = Ok ((1 - chi self) / (1 - sf * u ^ 2) / l self)).
  { unfold curvature_factor. rewrite Hsf. cbn [bind].
    rewrite (fdiv_ok _ _ Hd). cbn [bind]. now rewrite (fdiv_ok _ _ Hl). }
  destruct (dyn_ss_sol_yaw_rate sa u roll self Hu0 Hm Hj HsR Hcrit')
    as (v & r & Hss & Hr).
  rewrite (steady_state_sol_high_speed _ _ _ _ Hu), Hss.
  unfold yaw_rate.
  destruct Hslip as [HD | Hbig].
  - assert (Hsf0 : sf == 0) by (unfold sf; rewrite HD; field;
                                repeat split; assumption).
    assert (Hrc : roll_compensation self roll u = Ok 0).
    { unfold roll_compensation. rewrite Hsf. cbn [bind].
      assert (Hsmall : Qabs sf < 1e-6) by (rewrite Hsf0; reflexivity).
      now rewrite (proj2 (Qltb_lt _ _) Hsmall). }
    rewrite (calc_curvature_value _ _ _ _ _ _ Hcf Hrc HsR). cbn [bind].
    do 3 eexists. split; [reflexivity |]. split; [reflexivity |].
    rewrite Hr. unfold sf. rewrite HD, Hl'.
    field. repeat split; assumption.
  - assert (Hsf0 : ~ sf == 0).
    { intros Hz. rewrite Hz in Hbig. vm_compute in Hbig. now apply Hbig. }
    assert (HD : ~ cF self * aF self - cR self * aR self == 0).
    { intros Hz. apply Hsf0. unfold sf. rewrite Hz. field.
      repeat split; assumption. }
    assert (Hd' : ~ 1 / sf - u ^ 2 == 0).
    { intros Hz. apply Hd.
      assert (Heq : 1 - sf * u ^ 2 == sf * (1 / sf - u ^ 2))
        by (field; exact Hsf0).
      rewrite Heq, Hz. ring. }
    assert (Hrc : roll_compensation self roll u
                  = Ok (9.8 * roll / (1 / sf - u ^ 2))).
    { unfold roll_compensation. rewrite Hsf. cbn [bind].
      rewrite (proj2 (Qltb_ge _ _) Hbig).
      rewrite (fdiv_ok 1 _ Hsf0). cbn [bind]. now rewrite (fdiv_ok _ _ Hd'). }
    rewrite (calc_curvature_value _ _ _ _ _ _ Hcf Hrc HsR). cbn [bind].
    do 3 eexists. split; [reflexivity |]. split; [reflexivity |].
    rewrite Hr. unfold sf. rewrite Hl'.
    field. repeat split; assumption.
Qed.

Lemma steady_state_sol_yaw_rate_is_yaw_rate_witness :
  (exists v r yr,
      steady_state_sol VM_understeer 0.1 20 0.02 = Ok (v, r) /\
      yaw_rate VM_understeer 0.1 20 0.02 = Ok yr /\ r == yr) /\
  (exists v r yr,
      steady_state_sol VM_example 0.1 20 0.02 = Ok (v, r) /\
      yaw_rate VM_example 0.1 20 0.02 = Ok yr /\ r == yr).
Proof.
  split.
  - apply (steady_state_sol_yaw_rate_is_yaw_rate VM_understeer 0.1 20 0.02);
      try (vm_compute; discriminate); try reflexivity.
    right. vm_compute. discriminate.
  - apply (steady_state_sol_yaw_rate_is_yaw_rate VM_example 0.1 20 0.02);
      try (vm_compute; discriminate); try reflexivity.
    left. reflexivity.
Defined.

(** X13. The steady state is additive in the pair of steering angle and
    roll, in both regimes: where two inputs have a steady state, their sum has
    one, the sum of the two. *)
Theorem steady_state_sol_superposition :
  forall (self : VehicleModel) (u sa1 sa2 roll1 roll2 : Q) (x1 x2 : vec2),
    steady_state_sol self sa1 u roll1 = Ok x1 ->
    steady_state_sol self sa2 u roll2 = Ok x2 ->
    exists x12,
      steady_state_sol self (sa1 + sa2) u (roll1 + roll2) = Ok x12 /\
      veq x12 (fst x1 + fst x2, snd x1 + snd x2).
Proof.
  intros self u sa1 sa2 roll1 roll2 x1 x2.
  unfold steady_state_sol. destruct (Qltb 0.1 u).
  - unfold dyn_ss_sol.
    destruct (create_dyn_state_matrices u self) as [[A B] |]; [| discriminate].
    cbn [bind]. destruct (solve A B) as [X |]; [| discriminate].
    cbn [bind]. intros H1 H2. injection H1 as <-. injection H2 as <-.
    eexists. split; [reflexivity |]. unfold veq. cbn. split; ring.
  - unfold kin_ss_sol.
    destruct (fdiv (aR self) (sR self)) as [a |]; [| discriminate].
    cbn [bind]. destruct (fdiv a (l self)) as [b |]; [| discriminate].
    cbn [bind]. destruct (fdiv 1 (sR self)) as [c |]; [| discriminate].
    cbn [bind]. destruct (fdiv c (l self)) as [d |]; [| discriminate].
    cbn [bind]. intros H1 H2. injection H1 as <-. injection H2 as <-.
    eexists. split; [reflexivity |]. unfold veq. cbn. split; ring.
Qed.

Lemma steady_state_sol_superposition_witness :
  exists x1 x2 x12,
    steady_state_sol VM_understeer 0.1 20 0.02 = Ok x1 /\
    steady_state_sol VM_understeer (-0.3) 20 0.01 = Ok x2 /\
    steady_state_sol VM_understeer (0.1 + -0.3) 20 (0.02 + 0.01) = Ok x12 /\
    veq x12 (fst x1 + fst x2, snd x1 + snd x2).
Proof.
  destruct (steady_state_sol VM_understeer 0.1 20 0.02) as [x1 |] eqn:H1;
    [| vm_compute in H1; discriminate].
  destruct (steady_state_sol VM_understeer (-0.3) 20 0.01) as [x2 |] eqn:H2;
    [| vm_compute in H2; discriminate].
  destruct (steady_state_sol_superposition VM_understeer 20 0.1 (-0.3)
                                           0.02 0.01 x1 x2 H1 H2)
    as (x12 & H12 & Hsum).
  exists x1, x2, x12. repeat split; try assumption; apply Hsum.
Defined.

(** X14. In the kinematic regime the call has a value exactly when the
    steer ratio and the wheelbase are nonzero, and then the lateral speed is
    the yaw rate times the rear axle distance: [v = aR * r]. *)
Theorem steady_state_sol_kinematic_relation :
  forall (self : VehicleModel) (sa u roll : Q),
    u <= 0.1 ->
    ((exists x_ss, steady_state_sol self sa u roll = Ok x_ss) <->
     ~ sR self == 0 /\ ~ l self == 0) /\
    (forall v r, steady_state_sol self sa u roll = Ok (v, r) ->
                 v == aR self * r).
Proof.
  intros self sa u roll Hu.
  rewrite (steady_state_sol_low_speed _ _ _ _ Hu).
  assert (Hinv : forall x_ss, kin_ss_sol sa u self = Ok x_ss ->
                              ~ sR self == 0 /\ ~ l self == 0).
  { intros x_ss H. split; intros Hz;
      rewrite kin_ss_sol_zero_division in H by tauto; discriminate. }
  split; [split |].
  - intros [x_ss H]. exact (Hinv x_ss H).
  - intros [HsR Hl]. rewrite (kin_ss_sol_value _ _ _ HsR Hl). now eexists.
  - intros v r H. destruct (Hinv _ H) as [HsR Hl].
    rewrite (kin_ss_sol_value _ _ _ HsR Hl) in H. injection H as <- <-.
    field. split; assumption.
Qed.

Lemma steady_state_sol_kinematic_relation_witness :
  0.05 <= 0.1 /\
  (exists x_ss, steady_state_sol VM_understeer 0.3 0.05 0.02 = Ok x_ss) /\
  (forall v r, steady_state_sol VM_understeer 0.3 0.05 0.02 = Ok (v, r) ->
               v == aR VM_understeer * r).
Proof.
  assert (Hu : 0.05 <= 0.1) by (vm_compute; discriminate).
  split; [exact Hu |].
  destruct (steady_state_sol_kinematic_relation VM_understeer 0.3 0.05 0.02 Hu)
    as [Hdef Hrel].
  split; [| exact Hrel].
  apply Hdef. split; vm_compute; discriminate.
Defined.

(** ** The 3-state system *)

(** X15. Where the 2-state matrices exist the 3-state ones exist too.
    Their first row lets the longitudinal acceleration alone drive the
    speed, their lateral and yaw rows repeat the 2-state matrix [A], and
    their steering column is the 2-state one when there is no rear steering
    ([chi = 0]); there is no roll column. *)
Theorem create_dyn_state_matrices_3dof_mirrors_2state :
  forall (u v r : Q) (VM : VehicleModel) (A B : mat22),
    create_dyn_state_matrices u VM = Ok (A, B) ->
    exists (A3 : mat33) (B3 : mat32),
      create_dyn_state_matrices_3dof u v r VM = Ok (A3, B3) /\
      (a00 A3 == 0 /\ a01 A3 == 0 /\ a02 A3 == 0 /\
       b00 B3 == 0 /\ b01 B3 == 1) /\
      (a10 A3 == 0 /\ a11 A3 == e00 A /\ a12 A3 == e01 A /\
       a20 A3 == 0 /\ a21 A3 == e10 A /\ a22 A3 == e11 A) /\
      (b11 B3 == 0 /\ b21 B3 == 0) /\
      (chi VM == 0 -> b10 B3 == e00 B /\ b20 B3 == e10 B).
Proof.
  intros u v r VM A B H.
  assert (Hdef : ~ u == 0 /\ ~ m VM == 0 /\ ~ j VM == 0 /\ ~ sR VM == 0).
  { unfold create_dyn_state_matrices in H. fdiv_cases H.
    repeat split; try assumption.
    intros Hz. apply E. rewrite Hz. ring. }
  destruct Hdef as (Hu & Hm & Hj & HsR).
  rewrite (create_dyn_state_matrices_defined u VM Hu Hm Hj HsR) in H.
  injection H as <- <-.
  assert (Hmu : ~ m VM * u == 0)
    by (intros Hz; apply Qmult_integral in Hz; tauto).
  assert (Hju : ~ j VM * u == 0)
    by (intros Hz; apply Qmult_integral in Hz; tauto).
  assert (Hms : ~ m VM * sR VM == 0)
    by (intros Hz; apply Qmult_integral in Hz; tauto).
  assert (Hjs : ~ j VM * sR VM == 0)
    by (intros Hz; apply Qmult_integral in Hz; tauto).
  unfold create_dyn_state_matrices_3dof.
  rewrite !(fdiv_ok _ _ Hmu). cbn [bind].
  rewrite !(fdiv_ok _ _ Hju). cbn [bind].
  rewrite (fdiv_ok _ _ Hms). cbn [bind].
  rewrite (fdiv_ok _ _ Hjs). cbn [bind].
  do 2 eexists. split; [reflexivity |]. cbn.
  repeat split; try reflexivity.
  - field. split; assumption.
  - rewrite H. field. split; assumption.
  - rewrite H. field. split; assumption.
Qed.

Lemma create_dyn_state_matrices_3dof_mirrors_2state_witness :
  exists (A B : mat22) (A3 : mat33) (B3 : mat32),
    create_dyn_state_matrices 20 VM_understeer = Ok (A, B) /\
    create_dyn_state_matrices_3dof 20 0.02 0.03 VM_understeer = Ok (A3, B3) /\
    a11 A3 == e00 A /\ a12 A3 == e01 A /\
    a21 A3 == e10 A /\ a22 A3 == e11 A /\
    b10 B3 == e00 B /\ b20 B3 == e10 B.
Proof.
  destruct (create_dyn_state_matrices 20 VM_understeer) as [[A B] |] eqn:H;
    [| vm_compute in H; discriminate].
  destruct (create_dyn_state_matrices_3dof_mirrors_2state
              20 0.02 0.03 VM_understeer A B H)
    as (A3 & B3 & H3 & _ & (_ & H11 & H12 & _ & H21 & H22) & _ & Hchi).
  destruct (Hchi ltac:(reflexivity)) as [Hb1 Hb2].
  exists A, B, A3, B3. repeat split; assumption.
Defined.

(** X16. One step of the 3-state system changes the longitudinal speed by
    the longitudinal acceleration alone: the first component of
    [A @ state + B @ input] is [a_x], whatever the state and the steering
    angle are, and the other two components do not depend on the
    longitudinal speed in the state. *)
Theorem x_dot_3dof_longitudinal :
  forall (u v r : Q) (VM : VehicleModel) (A3 : mat33) (B3 : mat32),
    create_dyn_state_matrices_3dof u v r VM = Ok (A3, B3) ->
    forall (s0 s0' s1 s2 sa a_x : Q),
      fst (fst (x_dot_3dof A3 B3 (s0, s1, s2) (sa, a_x))) == a_x /\
      snd (fst (x_dot_3dof A3 B3 (s0, s1, s2) (sa, a_x)))
      == snd (fst (x_dot_3dof A3 B3 (s0', s1, s2) (sa, a_x))) /\
      snd (x_dot_3dof A3 B3 (s0, s1, s2) (sa, a_x))
      == snd (x_dot_3dof A3 B3 (s0', s1, s2) (sa, a_x)).
Proof.
  intros u v r VM A3 B3 H s0 s0' s1 s2 sa a_x.
  unfold create_dyn_state_matrices_3dof in H. fdiv_cases H.
  injection H as <- <-. cbn. repeat split; ring.
Qed.

Lemma x_dot_3dof_longitudinal_witness :
  exists (A3 : mat33) (B3 : mat32),
    create_dyn_state_matrices_3dof 20 0.02 0.03 VM_understeer = Ok (A3, B3) /\
    fst (fst (x_dot_3dof A3 B3 (20, 0.02, 0.03) (0.1, 0.4))) == 0.4.
Proof.
  destruct (create_dyn_state_matrices_3dof 20 0.02 0.03 VM_understeer)
    as [[A3 B3] |] eqn:H; [| vm_compute in H; discriminate].
  exists A3, B3. split; [reflexivity |].
  exact (proj1 (x_dot_3dof_longitudinal 20 0.02 0.03 VM_understeer A3 B3 H
                                        20 0 0.02 0.03 0.1 0.4)).
Defined.

(** ** The segments and the window of the fusion estimator *)

Lemma firstn_app_slice {A : Type} (xs : list A) (a b : nat) :
  (a <= b)%nat -> firstn a xs ++ slice xs a b = firstn b xs.
Proof.
  intros Hab. unfold slice.
  rewrite <- (firstn_skipn a (firstn b xs)) at 2.
  f_equal. rewrite firstn_firstn. f_equal. lia.
Qed.

Lemma concat_slices {A : Type} (xs : list A) (k : nat) :
  concat (map (fun i => slice xs i (i + SEGMENT_LENGTH_3DOF))
              (map (fun q => (5 * q)%nat) (seq 0 k)))
  = firstn (5 * k) xs.
Proof.
  induction k as [| k IH].
  - reflexivity.
  - rewrite seq_S, !map_app, concat_app, IH. cbn [map concat seq Nat.add].
    rewrite app_nil_r. unfold SEGMENT_LENGTH_3DOF.
    rewrite firstn_app_slice by lia. f_equal. lia.
Qed.

(** X17. The segments of a trajectory of [n >= 5] samples start at
    0, 5, 10, ...; each has exactly five samples, and put end to end they
    are the first [5 * ((n - 1) / 5)] samples: they neither overlap nor leave
    a gap, and between one and five samples at the end belong to no
    segment. *)
Theorem segments_partition_prefix :
  forall (A : Type) (xs : list A),
    (5 <= length xs)%nat ->
    let starts := segment_starts (length xs) in
    let segment := fun i => slice xs i (i + SEGMENT_LENGTH_3DOF) in
    Forall (fun i => length (segment i) = 5%nat) starts /\
    concat (map segment starts) = firstn (5 * ((length xs - 1) / 5)) xs /\
    (1 <= length xs - 5 * ((length xs - 1) / 5) <= 5)%nat.
Proof.
  intros A xs Hn starts segment. split; [| split].
  - apply Forall_forall. intros i Hi.
    apply (segment_starts_full _ _ Hn) in Hi.
    unfold segment, slice, SEGMENT_LENGTH_3DOF.
    rewrite length_skipn, length_firstn. lia.
  - unfold starts, segment. rewrite (segment_starts_spec _ Hn).
    apply concat_slices.
  - assert (H := Nat.div_mod_eq (length xs - 1) 5).
    assert (H' := Nat.mod_upper_bound (length xs - 1) 5). lia.
Qed.

Lemma segments_partition_prefix_witness :
  (5 <= length [10; 11; 12; 13; 14; 15; 16; 17; 18; 19; 20; 21])%nat /\
  concat (map (fun i => slice [10; 11; 12; 13; 14; 15; 16; 17; 18; 19; 20; 21]
                              i (i + SEGMENT_LENGTH_3DOF))
              (segment_starts 12))
  = [10; 11; 12; 13; 14; 15; 16; 17; 18; 19].
Proof.
  assert (Hn : (5 <= length [10; 11; 12; 13; 14; 15; 16; 17; 18; 19; 20; 21])%nat)
    by (cbn; lia).
  split; [exact Hn |].
  exact (proj1 (proj2 (segments_partition_prefix
                         Q [10; 11; 12; 13; 14; 15; 16; 17; 18; 19; 20; 21]
                         Hn))).
Defined.

(** The running total telescopes: on arrival at index [i] it is the
    timestamp of sample [i] minus the first timestamp. *)
Lemma elapsed_telescopes (times : list Q) (i : nat) :
  elapsed times i == nth i times 0 - nth 0 times 0.
Proof.
  induction i as [| i IH].
  - cbn [elapsed]. ring.
  - cbn [elapsed]. rewrite IH, Nat.add_1_r. ring.
Qed.

(** X18. The window is measured on the timestamps of the samples whose
    index is the segment number: the corrected values kept are those of the
    segments [0 .. k-1], where [k] is the first segment number with
    [times[k] - times[0] >= time_horizon] (all of them if there is none). *)
Theorem time_window_by_sample_timestamps :
  forall (combined_curvatures times : list Q) (time_horizon : Q),
    (length combined_curvatures < length times)%nat ->
    exists k : nat,
      (k <= length combined_curvatures)%nat /\
      time_window combined_curvatures times time_horizon
      = firstn k combined_curvatures /\
      (forall d : nat, (d < k)%nat ->
                       nth d times 0 - nth 0 times 0 < time_horizon) /\
      ((k < length combined_curvatures)%nat ->
       time_horizon <= nth k times 0 - nth 0 times 0).
Proof.
  intros cs times time_horizon Hlen.
  destruct (time_window_from_prefix times time_horizon cs 0 [])
    as (k & Hk & Heq & Hbefore & Hat); [cbn; lia |].
  exists k. repeat split.
  - lia.
  - exact Heq.
  - intros d Hd. rewrite <- elapsed_telescopes. exact (Hbefore d Hd).
  - intros Hk'. rewrite <- elapsed_telescopes. exact (Hat Hk').
Qed.

Lemma time_window_by_sample_timestamps_witness :
  exists k : nat,
    (k <= length [1; 2; 3])%nat /\
    time_window [1; 2; 3] [0; 3; 4; 5] 2 = firstn k [1; 2; 3] /\
    (forall d : nat, (d < k)%nat ->
                     nth d [0; 3; 4; 5] 0 - nth 0 [0; 3; 4; 5] 0 < 2) /\
    ((k < length [1; 2; 3])%nat ->
     2 <= nth k [0; 3; 4; 5] 0 - nth 0 [0; 3; 4; 5] 0).
Proof.
  apply (time_window_by_sample_timestamps [1; 2; 3] [0; 3; 4; 5] 2).
  cbn. lia.
Defined.










(** ** Degenerate recalibrations *)

(** X22. After a recalibration with a stiffness factor of zero both
    stiffnesses are zero: the curvature mappings raise [ZeroDivisionError]
    (the slip factor divides by [cF*cR]) and, above 0.1, the steady state
    fails with the singular-matrix error. *)
Theorem zero_stiffness_factor_degenerates :
  forall (self : VehicleModel) (steer_ratio sa curv u roll : Q),
    let VM := update_params self 0 steer_ratio in
    calc_curvature VM sa u roll = Raise ZeroDivisionError /\
    get_steer_from_curvature VM curv u roll = Raise ZeroDivisionError /\
    (0.1 < u -> ~ m self == 0 -> ~ j self == 0 -> ~ steer_ratio == 0 ->
     steady_state_sol VM sa u roll = Raise LinAlgError).
Proof.
  intros self steer_ratio sa curv u roll VM.
  assert (Hsf : calc_slip_factor VM = Raise ZeroDivisionError).
  { unfold calc_slip_factor. apply fdiv_zero. unfold VM. cbn. ring. }
  split; [| split].
  - unfold calc_curvature, curvature_factor. now rewrite Hsf.
  - unfold get_steer_from_curvature, roll_compensation. now rewrite Hsf.
  - intros Hu Hm Hj HsR.
    assert (Hu0 := speed_nonzero u Hu).
    assert (Hmat := create_dyn_state_matrices_defined u VM Hu0 Hm Hj HsR).
    assert (Hiff := det22_dyn_zero_iff u VM _ _ Hu0 Hm Hj HsR Hmat).
    rewrite (steady_state_sol_solve _ _ _ _ _ _ Hu Hmat).
    match goal with
    | |- context [solve ?A0 ?B0] =>
        rewrite (proj2 (solve_singular_iff A0 B0)); [reflexivity |]
    end.
    apply Hiff. unfold VM. cbn. ring.
Qed.

Lemma zero_stiffness_factor_degenerates_witness :
  calc_curvature (update_params VM_understeer 0 15) 0.1 20 0.02
  = Raise ZeroDivisionError /\
  steady_state_sol (update_params VM_understeer 0 15) 0.1 20 0.02
  = Raise LinAlgError.
Proof.
  destruct (zero_stiffness_factor_degenerates VM_understeer 15 0.1 0.01 20 0.02)
    as (Hc & _ & Hs).
  split; [exact Hc |].
  apply Hs; [reflexivity | | |]; vm_compute; discriminate.
Defined.

(** X23. After a recalibration with a steer ratio of zero the steady state
    and the curvature raise [ZeroDivisionError] at every speed, and the
    steering angle for a curvature, where it has a value, is zero. *)
Theorem zero_steer_ratio_degenerates :
  forall (self : VehicleModel) (stiffness_factor sa curv u roll : Q),
    let VM := update_params self stiffness_factor 0 in
    steady_state_sol VM sa u roll = Raise ZeroDivisionError /\
    calc_curvature VM sa u roll = Raise ZeroDivisionError /\
    (forall steer, get_steer_from_curvature VM curv u roll = Ok steer ->
                   steer == 0).
Proof.
  intros self stiffness_factor sa curv u roll VM.
  split; [| split].
  - unfold steady_state_sol. destruct (Qltb 0.1 u).
    + unfold dyn_ss_sol, create_dyn_state_matrices, fdiv.
      repeat match goal with
             | |- context [if Qeq_bool ?a ?b then _ else _] =>
                 lazymatch a with
                 | sR VM => fail
                 | _ => destruct (Qeq_bool a b); cbn [bind]
                 end
             end; reflexivity.
    + unfold kin_ss_sol. reflexivity.
  - unfold calc_curvature.
    destruct (curvature_factor VM u) as [cf | e] eqn:Hcf.
    + reflexivity.
    + cbn [bind]. f_equal.
      unfold curvature_factor, calc_slip_factor, fdiv in Hcf.
      repeat match type of Hcf with
             | context [if Qeq_bool ?a ?b then _ else _] =>
                 destruct (Qeq_bool a b); cbn [bind] in Hcf
             end; congruence.
  - intros steer H. unfold get_steer_from_curvature in H.
    destruct (roll_compensation VM roll u) as [rc |]; [| discriminate].
    cbn [bind] in H.
    destruct (curvature_factor VM u) as [cf |]; [| discriminate].
    cbn [bind] in H. apply fdiv_inv in H as [_ ->].
    unfold VM. cbn [sR update_params]. unfold Qdiv. ring.
Qed.

Lemma zero_steer_ratio_degenerates_witness :
  steady_state_sol (update_params VM_understeer 1 0) 0.1 20 0.02
  = Raise ZeroDivisionError /\
  steady_state_sol (update_params VM_understeer 1 0) 0.1 0.05 0.02
  = Raise ZeroDivisionError /\
  returns (get_steer_from_curvature (update_params VM_understeer 1 0)
                                    0.01 20 0.02) 0.
Proof.
  split; [| split].
  - exact (proj1 (zero_steer_ratio_degenerates VM_understeer 1 0.1 0.01 20 0.02)).
  - exact (proj1 (zero_steer_ratio_degenerates VM_understeer 1 0.1 0.01 0.05 0.02)).
  - destruct (get_steer_from_curvature (update_params VM_understeer 1 0)
                                       0.01 20 0.02) as [steer |] eqn:H;
      [| vm_compute in H; discriminate].
    exists steer. split; [reflexivity |].
    exact (proj2 (proj2 (zero_steer_ratio_degenerates
                           VM_understeer 1 0.1 0.01 20 0.02)) steer H).
Defined.
